(** * Content bootstrap and read API of the portfolio server

    A shallow embedding of [src/server.ts] (schema initialiser, start-up
    and the three read handlers) and of [src/api/index.ts] (the same three
    handlers packaged for a serverless host), together with the fragment of
    the relational store that the SQL text of those files exercises. *)

From Stdlib Require Import String Ascii List ZArith Bool Lia.
From Stdlib Require Import Permutation Sorted DecimalString DecimalNat.
Import ListNotations.
Open Scope string_scope.
Open Scope Z_scope.

(** ** SQL values and three-valued logic *)

Module Sql.

(** A nullable [TEXT] column: [None] is SQL [NULL]. *)
Definition text := option string.

(** An SQL truth value: [None] is unknown. *)
Definition tv := option bool.

(** [a = b] on text; comparing with [NULL] is unknown. *)
Definition text_eq (a b : text) : tv :=
  match a, b with
  | Some x, Some y => Some (String.eqb x y)
  | _, _ => None
  end.

Definition tv_or (a b : tv) : tv :=
  match a, b with
  | Some true, _ => Some true
  | _, Some true => Some true
  | Some false, Some false => Some false
  | _, _ => None
  end.

(** [a IN (l1, ..., ln)] is [a = l1 OR ... OR a = ln]. *)
Definition text_in (a : text) (l : list string) : tv :=
  fold_right (fun s acc => tv_or (text_eq a (Some s)) acc) (Some false) l.

(** A [WHERE] clause keeps a row only when the condition is true. *)
Definition where_holds (c : tv) : bool :=
  match c with Some true => true | _ => false end.

(** A [CHECK] constraint rejects a row only when the condition is false. *)
Definition check_holds (c : tv) : bool :=
  match c with Some false => false | _ => true end.

(** Errors the store raises, with their SQLSTATE class in the name. *)
Inductive dberror :=
| ConnectionFailure
| UndefinedTable (relation : string)
| InvalidTextRepresentation (input : string)
| NotNullViolation (column : string)
| CheckViolation (constraint : string)
| UniqueViolation (constraint : string).

Definition result (A : Type) := (dberror + A)%type.

(** [ORDER BY key DESC], as an insertion sort on the key. *)
Section OrderBy.
Context {A : Type} (key : A -> Z).

Fixpoint insert_desc (r : A) (l : list A) : list A :=
  match l with
  | [] => [r]
  | x :: xs => if key x <? key r then r :: l else x :: insert_desc r xs
  end.

Definition order_by_desc (l : list A) : list A :=
  fold_right insert_desc [] l.
End OrderBy.

End Sql.

(** ** The two relations *)

(** [CREATE TABLE posts (id SERIAL PRIMARY KEY, type TEXT CHECK(...),
    title TEXT NOT NULL, description TEXT, content TEXT, tags TEXT,
    date TEXT NOT NULL)]. Every text column is kept nullable in the row
    type; the column constraints are checks made by [insert]. *)
Module Post.

Record t := mk {
  id : Z;
  type : Sql.text;
  title : Sql.text;
  description : Sql.text;
  content : Sql.text;
  tags : Sql.text;
  date : Sql.text
}.

(** The column list of [INSERT INTO posts (type, title, description,
    content, tags, date)]: [id] is left to the sequence. *)
Record values := mkValues {
  v_type : Sql.text;
  v_title : Sql.text;
  v_description : Sql.text;
  v_content : Sql.text;
  v_tags : Sql.text;
  v_date : Sql.text
}.

Definition with_id (n : Z) (v : values) : t :=
  mk n (v_type v) (v_title v) (v_description v) (v_content v) (v_tags v) (v_date v).

(** [CHECK(type IN ('thinking', 'doing'))]. *)
Definition type_check (ty : Sql.text) : bool :=
  Sql.check_holds (Sql.text_in ty ["thinking"; "doing"]).

(** The column constraints, in the order the store reports them. *)
Definition constraints (v : values) : Sql.result unit :=
  match v_title v, v_date v with
  | None, _ => inl (Sql.NotNullViolation "title")
  | _, None => inl (Sql.NotNullViolation "date")
  | Some _, Some _ =>
      if type_check (v_type v) then inr tt
      else inl (Sql.CheckViolation "posts_type_check")
  end.

End Post.

(** [CREATE TABLE projects (id SERIAL PRIMARY KEY, title TEXT NOT NULL,
    description TEXT, image_url TEXT, project_url TEXT, github_url TEXT,
    tags TEXT)]. *)
Module Project.

Record t := mk {
  id : Z;
  title : Sql.text;
  description : Sql.text;
  image_url : Sql.text;
  project_url : Sql.text;
  github_url : Sql.text;
  tags : Sql.text
}.

Record values := mkValues {
  v_title : Sql.text;
  v_description : Sql.text;
  v_image_url : Sql.text;
  v_project_url : Sql.text;
  v_github_url : Sql.text;
  v_tags : Sql.text
}.

Definition with_id (n : Z) (v : values) : t :=
  mk n (v_title v) (v_description v) (v_image_url v) (v_project_url v)
     (v_github_url v) (v_tags v).

Definition constraints (v : values) : Sql.result unit :=
  match v_title v with
  | None => inl (Sql.NotNullViolation "title")
  | Some _ => inr tt
  end.

End Project.

(** ** Text to number conversions at the two ends of the wire *)

Module Lex.

Definition is_space (c : ascii) : bool :=
  match nat_of_ascii c with
  | 9%nat | 10%nat | 11%nat | 12%nat | 13%nat | 32%nat => true
  | _ => false
  end.

Definition digit (c : ascii) : option Z :=
  let n := Z.of_nat (nat_of_ascii c) in
  if (48 <=? n) && (n <=? 57) then Some (n - 48) else None.

Definition hex_digit (c : ascii) : option Z :=
  let n := Z.of_nat (nat_of_ascii c) in
  if (48 <=? n) && (n <=? 57) then Some (n - 48)
  else if (97 <=? n) && (n <=? 102) then Some (n - 87)
  else if (65 <=? n) && (n <=? 70) then Some (n - 55)
  else None.

Fixpoint skip_spaces (s : string) : string :=
  match s with
  | String c r => if is_space c then skip_spaces r else s
  | EmptyString => s
  end.

(** The longest prefix of [s] made of digits of the given radix, read
    as a number on top of [acc]; [seen] tells whether a digit was read.
    The rest of the string comes back with the number. *)
Fixpoint number (dig : ascii -> option Z) (radix : Z) (s : string)
         (seen : bool) (acc : Z) : bool * Z * string :=
  match s with
  | String c r =>
      match dig c with
      | Some d => number dig radix r true (radix * acc + d)
      | None => (seen, acc, s)
      end
  | EmptyString => (seen, acc, s)
  end.

(** An optional sign. *)
Definition sign (s : string) : Z * string :=
  match s with
  | String "-" r => (-1, r)
  | String "+" r => (1, r)
  | _ => (1, s)
  end.

End Lex.

(** ** Strings of the language *)

Module JsString.

(** [s.split(sep)] for a separator of one character: the pieces between
    its occurrences, empty ones included; a string without it is the one
    piece. *)
Fixpoint split (sep : ascii) (s : string) : list string :=
  match s with
  | EmptyString => [EmptyString]
  | String c r =>
      if Ascii.eqb c sep then EmptyString :: split sep r
      else match split sep r with
           | piece :: pieces => String c piece :: pieces
           | [] => [String c EmptyString]
           end
  end.

Definition byte (c : ascii) : nat := nat_of_ascii c.

(** White space and line terminators of the language, as the bytes of
    their UTF-8 form: the six of ASCII, U+00A0, and on three bytes
    U+1680, U+2000 to U+200A, U+2028, U+2029, U+202F, U+205F, U+3000 and
    U+FEFF. *)
Definition space2 (a b : ascii) : bool :=
  (byte a =? 194)%nat && (byte b =? 160)%nat.

Definition space3 (a b c : ascii) : bool :=
  ((byte a =? 225) && (byte b =? 154) && (byte c =? 128)
   || (byte a =? 226) && (byte b =? 128)
      && ((128 <=? byte c) && (byte c <=? 138)
          || (byte c =? 168) || (byte c =? 169) || (byte c =? 175))
   || (byte a =? 226) && (byte b =? 129) && (byte c =? 159)
   || (byte a =? 227) && (byte b =? 128) && (byte c =? 128)
   || (byte a =? 239) && (byte b =? 187) && (byte c =? 191))%nat.

(** Drops white space from the front of [s]; with [backwards], [s] is
    a string read from its end and the bytes of a character come in
    the opposite order. *)
Fixpoint strip (backwards : bool) (s : string) : string :=
  match s with
  | String a r =>
      if Lex.is_space a then strip backwards r
      else
        match r with
        | String b r2 =>
            if (if backwards then space2 b a else space2 a b)
            then strip backwards r2
            else
              match r2 with
              | String c r3 =>
                  if (if backwards then space3 c b a else space3 a b c)
                  then strip backwards r3
                  else s
              | EmptyString => s
              end
        | EmptyString => s
        end
  | EmptyString => s
  end.

Fixpoint rev_onto (s acc : string) : string :=
  match s with
  | EmptyString => acc
  | String c r => rev_onto r (String c acc)
  end.

Definition reverse (s : string) : string := rev_onto s EmptyString.

Definition trimStart (s : string) : string := strip false s.

Definition trimEnd (s : string) : string := reverse (strip true (reverse s)).

(** [s.trim()]. *)
Definition trim (s : string) : string := trimEnd (trimStart s).

End JsString.

(** ** Numbers of the language *)

Module Number.

(** The values [parseInt] can give: [NaN], an infinity, or a double
    that is an integer, kept as that integer. The two zeros are one
    here; [===] does not tell them apart. *)
Inductive t :=
| NaN
| Infinity (negative : bool)
| Finite (z : Z).

(** The double nearest to the integer [a >= 0], ties to the even
    mantissa of 53 bits; integers from [2^1024] on, once rounded, are
    [Infinity]. *)
Definition of_nonneg (a : Z) : t :=
  if a <? 2 ^ 53 then Finite a
  else
    let e := Z.log2 a - 52 in
    let q := Z.shiftr a e in
    let r := a - Z.shiftl q e in
    let half := Z.shiftl 1 (e - 1) in
    let q' := if (half <? r) || ((r =? half) && Z.odd q) then q + 1 else q in
    if 1024 <=? Z.log2 (Z.shiftl q' e) then Infinity false
    else Finite (Z.shiftl q' e).

Definition negate (x : t) : t :=
  match x with
  | NaN => NaN
  | Infinity negative => Infinity (negb negative)
  | Finite z => Finite (- z)
  end.

End Number.

(** JavaScript's [parseInt(s)] without a radix argument: leading white
    space and a sign are skipped, a [0x] prefix switches to radix 16, the
    longest run of digits is read and the rest ignored; without a digit
    the result is [NaN], otherwise the number nearest to what the digits
    write. (For more than twenty decimal digits the language lets an
    implementation read the later ones as zeros; they are read as written
    here.) *)
Definition parseInt (s : string) : Number.t :=
  let (sg, s1) := Lex.sign (JsString.trimStart s) in
  let '(seen, n, _) :=
    match s1 with
    | String "0" (String "x" r) => Lex.number Lex.hex_digit 16 r false 0
    | String "0" (String "X" r) => Lex.number Lex.hex_digit 16 r false 0
    | _ => Lex.number Lex.digit 10 s1 false 0
    end in
  if seen
  then if sg <? 0 then Number.negate (Number.of_nonneg n) else Number.of_nonneg n
  else Number.NaN.

(** The store prints a [bigint] such as [COUNT( * )] in decimal, and the
    driver hands it to the program as that string. *)
Definition int8out (n : nat) : string :=
  NilEmpty.string_of_uint (Nat.to_uint n).

(** How the store reads a text parameter bound to an [integer] column.
    The accepted syntax belongs to the store and differs between its
    versions, so the handlers are modelled for any such function. *)
Class TextInput := { int4in : string -> option Z }.

(** The syntax every version of the store accepts: optional white space,
    an optional sign, decimal digits, optional white space, and a value
    that fits 32 bits. *)
Definition int4in_decimal (s : string) : option Z :=
  let (sg, s1) := Lex.sign (Lex.skip_spaces s) in
  let '(seen, n, rest) := Lex.number Lex.digit 10 s1 false 0 in
  match Lex.skip_spaces rest with
  | EmptyString =>
      if seen && (-2147483648 <=? sg * n) && (sg * n <=? 2147483647)
      then Some (sg * n) else None
  | String _ _ => None
  end.

Definition decimal_input : TextInput := {| int4in := int4in_decimal |}.

(** ** The content store *)

Module Store.

(** A relation with a [SERIAL] key: its rows in insertion order and the
    last value its sequence handed out. *)
Record table (A : Type) := mkTable {
  rows : list A;
  last_value : Z
}.
Arguments mkTable {A} _ _.
Arguments rows {A} _.
Arguments last_value {A} _.

Definition empty_table {A : Type} : table A := mkTable [] 0.

(** A relation is absent until it is created. *)
Record t := mk {
  posts : option (table Post.t);
  projects : option (table Project.t)
}.

Definition fresh : t := mk None None.

(** A statement: its result and the store it leaves. *)
Definition statement (A : Type) := t -> Sql.result A * t.

Definition if_not_exists {A : Type} (r : option (table A)) : option (table A) :=
  match r with
  | Some tb => Some tb
  | None => Some empty_table
  end.

(** [CREATE TABLE IF NOT EXISTS posts (...); CREATE TABLE IF NOT EXISTS
    projects (...);] sent as one query. *)
Definition create_tables : statement unit :=
  fun s => (inr tt, mk (if_not_exists (posts s)) (if_not_exists (projects s))).

Section Insert.
Context {V A : Type}.
Variable constraints : V -> Sql.result unit.
Variable with_id : Z -> V -> A.
Variable key : A -> Z.
Variable pkey : string.

(** The tuples of a [VALUES] list are taken in order: the sequence
    gives the next key, the column constraints are checked, then the
    primary key. The sequence keeps the values it gave out even when
    the statement fails. Keys have no bound here; the store's are
    32-bit integers and its sequence fails past 2147483647, so the two
    agree as long as the keys stay below that. *)
Fixpoint insert_values (vs : list V) (rs : list A) (seq : Z)
  : Sql.result (list A) * Z :=
  match vs with
  | [] => (inr rs, seq)
  | v :: vs' =>
      let n := seq + 1 in
      match constraints v with
      | inl e => (inl e, n)
      | inr _ =>
          if existsb (fun r => key r =? n) rs
          then (inl (Sql.UniqueViolation pkey), n)
          else insert_values vs' (rs ++ [with_id n v]) n
      end
  end.

(** A failed statement leaves the rows as they were. *)
Definition insert (vs : list V) (tb : table A) : Sql.result unit * table A :=
  match insert_values vs (rows tb) (last_value tb) with
  | (inr rs, n) => (inr tt, mkTable rs n)
  | (inl e, n) => (inl e, mkTable (rows tb) n)
  end.
End Insert.

(** [INSERT INTO posts (type, title, description, content, tags, date)
    VALUES ...]. *)
Definition insert_posts (vs : list Post.values) : statement unit :=
  fun s =>
    match posts s with
    | None => (inl (Sql.UndefinedTable "posts"), s)
    | Some tb =>
        let (r, tb') := insert Post.constraints Post.with_id Post.id "posts_pkey" vs tb in
        (r, mk (Some tb') (projects s))
    end.

(** [INSERT INTO projects (title, description, image_url, project_url,
    github_url, tags) VALUES ...]. *)
Definition insert_projects (vs : list Project.values) : statement unit :=
  fun s =>
    match projects s with
    | None => (inl (Sql.UndefinedTable "projects"), s)
    | Some tb =>
        let (r, tb') :=
          insert Project.constraints Project.with_id Project.id "projects_pkey" vs tb in
        (r, mk (posts s) (Some tb'))
    end.

(** A query reads the store and leaves it as it is. *)
Definition reading {A : Type} (q : t -> Sql.result A) : statement A :=
  fun s => (q s, s).

Definition from_posts {A : Type} (f : list Post.t -> Sql.result A) : statement A :=
  reading (fun s =>
    match posts s with
    | None => inl (Sql.UndefinedTable "posts")
    | Some tb => f (rows tb)
    end).

Definition from_projects {A : Type} (f : list Project.t -> Sql.result A) : statement A :=
  reading (fun s =>
    match projects s with
    | None => inl (Sql.UndefinedTable "projects")
    | Some tb => f (rows tb)
    end).

(** [SELECT COUNT( * ) as count FROM posts]: the one row's [count]. *)
Definition count_posts : statement string :=
  from_posts (fun rs => inr (int8out (length rs))).

(** [SELECT COUNT( * ) as count FROM projects]. *)
Definition count_projects : statement string :=
  from_projects (fun rs => inr (int8out (length rs))).

(** [SELECT * FROM posts ORDER BY id DESC]. *)
Definition select_posts : statement (list Post.t) :=
  from_posts (fun rs => inr (Sql.order_by_desc Post.id rs)).

(** [SELECT * FROM posts WHERE type = $1 ORDER BY id DESC], for a
    parameter the store takes as a text; it refuses one that holds a
    NUL byte, which is not modelled. *)
Definition select_posts_by_type (p : Sql.text) : statement (list Post.t) :=
  from_posts (fun rs =>
    inr (Sql.order_by_desc Post.id
           (filter (fun r => Sql.where_holds (Sql.text_eq (Post.type r) p)) rs))).

(** [SELECT * FROM posts WHERE id = $1]: the relation is looked up when
    the statement is parsed, the text parameter is read as an integer
    when it is bound. *)
Definition select_post_by_id `{TextInput} (p : string) : statement (list Post.t) :=
  from_posts (fun rs =>
    match int4in p with
    | None => inl (Sql.InvalidTextRepresentation p)
    | Some n => inr (filter (fun r => Post.id r =? n) rs)
    end).

(** [SELECT * FROM projects ORDER BY id DESC]. *)
Definition select_projects : statement (list Project.t) :=
  from_projects (fun rs => inr (Sql.order_by_desc Project.id rs)).

(** The statements that change the store: the two of [initDb] with any
    [VALUES] list, as any client of the store may send them. *)
Inductive write :=
| CreateTables
| InsertPosts (vs : list Post.values)
| InsertProjects (vs : list Project.values).

Definition perform (s : t) (c : write) : t :=
  match c with
  | CreateTables => snd (create_tables s)
  | InsertPosts vs => snd (insert_posts vs s)
  | InsertProjects vs => snd (insert_projects vs s)
  end.

(** The store after a sequence of writes on a fresh one. *)
Definition history (cs : list write) : t := fold_left perform cs fresh.

End Store.

(** ** The JavaScript side: values, errors and effects *)

Module Js.

#[warnings="-register-all"]
Inductive json :=
| JNull
| JNum (n : Z)
| JStr (s : string)
| JArr (items : list json)
| JObj (fields : list (string * json)).

(** What a [throw] carries: an error of the store passed on by the
    driver, or an [Error] made by the program or a library. *)
Inductive error :=
| DbError (e : Sql.dberror)
| Error (msg : string).

(** An argument of a call to [console.error]: a string, or an error
    object, which the console prints with its message, its stack and
    its fields. *)
Inductive printed :=
| Text (s : string)
| Object (e : error).

(** What the process can observe and change. [faults] is the fate of
    the coming round trips to the store, in order: [true] is a lost
    connection, and past the end of the list every round trip goes
    through. [checked_out] counts the pool clients handed out and not
    yet released; [stderr] holds the calls to [console.error], each with
    its arguments; [listening] is the port once [listen] was called. *)
Record world := mkWorld {
  db : Store.t;
  faults : list bool;
  checked_out : nat;
  stderr : list (list printed);
  stdout : list string;
  listening : option Z
}.

Definition with_db (s : Store.t) (w : world) : world :=
  mkWorld s (faults w) (checked_out w) (stderr w) (stdout w) (listening w).
Definition with_faults (f : list bool) (w : world) : world :=
  mkWorld (db w) f (checked_out w) (stderr w) (stdout w) (listening w).
Definition with_checked_out (n : nat) (w : world) : world :=
  mkWorld (db w) (faults w) n (stderr w) (stdout w) (listening w).
Definition with_stderr (l : list (list printed)) (w : world) : world :=
  mkWorld (db w) (faults w) (checked_out w) l (stdout w) (listening w).
Definition with_stdout (l : list string) (w : world) : world :=
  mkWorld (db w) (faults w) (checked_out w) (stderr w) l (listening w).
Definition with_listening (p : option Z) (w : world) : world :=
  mkWorld (db w) (faults w) (checked_out w) (stderr w) (stdout w) p.

(** How a computation ends: with a value, with a [throw] (a rejected
    promise, for an [async] function), or by [process.exit]. *)
Inductive outcome (A : Type) :=
| Ret (a : A)
| Throw (e : error)
| Exit (code : Z).
Arguments Ret {A} _.
Arguments Throw {A} _.
Arguments Exit {A} _.

Definition M (A : Type) := world -> outcome A * world.

Definition ret {A : Type} (a : A) : M A := fun w => (Ret a, w).

Definition bind {A B : Type} (m : M A) (k : A -> M B) : M B :=
  fun w =>
    match m w with
    | (Ret a, w') => k a w'
    | (Throw e, w') => (Throw e, w')
    | (Exit c, w') => (Exit c, w')
    end.

Definition throw {A : Type} (e : error) : M A := fun w => (Throw e, w).

(** [process.exit(code)]: nothing after it runs, handlers included. *)
Definition process_exit {A : Type} (code : Z) : M A := fun w => (Exit code, w).

(** [try { body } catch (err) { handler }]. *)
Definition try_catch {A : Type} (body : M A) (handler : error -> M A) : M A :=
  fun w =>
    match body w with
    | (Throw e, w') => handler e w'
    | r => r
    end.

(** [try { body } finally { fin }]. *)
Definition try_finally {A : Type} (body : M A) (fin : M unit) : M A :=
  fun w =>
    match body w with
    | (Exit c, w') => (Exit c, w')
    | (o, w') =>
        match fin w' with
        | (Ret _, w'') => (o, w'')
        | (Throw e, w'') => (Throw e, w'')
        | (Exit c, w'') => (Exit c, w'')
        end
    end.

(** [try { body } catch (err) { handler } finally { fin }]. *)
Definition try_catch_finally {A : Type}
           (body : M A) (handler : error -> M A) (fin : M unit) : M A :=
  try_finally (try_catch body handler) fin.

Definition when (b : bool) (m : M unit) : M unit :=
  if b then m else ret tt.

(** [console.error(...args)]. *)
Definition console_error (args : list printed) : M unit :=
  fun w => (Ret tt, with_stderr (stderr w ++ [args]) w).

Definition console_log (line : string) : M unit :=
  fun w => (Ret tt, with_stdout (stdout w ++ [line]) w).

(** Truthiness of an environment variable or of a query parameter:
    [undefined] and the empty string are falsy. *)
Definition truthy (v : option string) : bool :=
  match v with
  | None => false
  | Some s => negb (String.eqb s "")
  end.

End Js.

Declare Scope js_scope.
Delimit Scope js_scope with js.
Notation "x <- c1 ;; c2" := (Js.bind c1 (fun x => c2))
  (at level 61, c1 at next level, right associativity) : js_scope.
Notation "c1 ;; c2" := (Js.bind c1 (fun _ => c2))
  (at level 61, right associativity) : js_scope.
Open Scope js_scope.

(** ** The connection pool of the driver *)

Module Pool.
Import Js.

(** A client checked out of the pool. *)
Inductive client := Client.

(** One round trip to the store, lost or not as [faults] says. *)
Definition round_trip : M unit :=
  fun w =>
    match faults w with
    | [] => (Ret tt, w)
    | false :: fs => (Ret tt, with_faults fs w)
    | true :: fs => (Throw (DbError Sql.ConnectionFailure), with_faults fs w)
    end.

(** Run a statement over a connection that is up. *)
Definition execute {A : Type} (q : Store.statement A) : M A :=
  fun w =>
    let (r, s) := q (db w) in
    match r with
    | inl e => (Throw (DbError e), with_db s w)
    | inr a => (Ret a, with_db s w)
    end.

(** [pool.connect()]. *)
Definition connect : M client :=
  round_trip ;;
  fun w => (Ret Client, with_checked_out (S (checked_out w)) w).

(** [client.release()]. *)
Definition release (c : client) : M unit :=
  fun w => (Ret tt, with_checked_out (Nat.pred (checked_out w)) w).

(** One round trip on a checked-out client. When the connection is
    lost under it the client emits ['error']; the program listens to
    that event nowhere, so it is unhandled and ends the process with
    status 1 before the rejected promise of the query is looked at. *)
Definition client_round_trip : M unit :=
  fun w =>
    match faults w with
    | [] => (Ret tt, w)
    | false :: fs => (Ret tt, with_faults fs w)
    | true :: fs => (Exit 1, with_faults fs w)
    end.

(** [client.query(sql)], on a client that [pool.connect()] gave. *)
Definition client_query {A : Type} (c : client) (q : Store.statement A) : M A :=
  client_round_trip ;; execute q.

(** [pool.query(sql, params)]: the pool lends a client for the one
    statement, listens to its errors meanwhile, and takes it back
    whatever happens: a lost connection rejects the promise. *)
Definition query {A : Type} (q : Store.statement A) : M A :=
  c <- connect ;;
  try_finally (execute q) (release c).

End Pool.

(** ** Responses *)

Module Http.
Import Js.

Record response := mkResponse {
  status : Z;
  body : json
}.

(** [res.json(v)]: the status is 200 unless it was set. *)
Definition json (v : Js.json) : response := mkResponse 200 v.

(** [res.status(code).json(v)]. *)
Definition status_json (code : Z) (v : Js.json) : response := mkResponse code v.

Definition text_json (t : Sql.text) : Js.json :=
  match t with
  | None => JNull
  | Some s => JStr s
  end.

(** A row as the driver hands it over: one property per column. *)
Definition post_json (r : Post.t) : Js.json :=
  JObj [("id", JNum (Post.id r));
        ("type", text_json (Post.type r));
        ("title", text_json (Post.title r));
        ("description", text_json (Post.description r));
        ("content", text_json (Post.content r));
        ("tags", text_json (Post.tags r));
        ("date", text_json (Post.date r))].

Definition project_json (r : Project.t) : Js.json :=
  JObj [("id", JNum (Project.id r));
        ("title", text_json (Project.title r));
        ("description", text_json (Project.description r));
        ("image_url", text_json (Project.image_url r));
        ("project_url", text_json (Project.project_url r));
        ("github_url", text_json (Project.github_url r));
        ("tags", text_json (Project.tags r))].

(** [{ error: "Database error" }]. *)
Definition database_error : Js.json := JObj [("error", JStr "Database error")].

(** [{ error: "Post not found" }]. *)
Definition post_not_found : Js.json := JObj [("error", JStr "Post not found")].

(** The three routes of the read API. *)
Inductive request :=
| GetPosts (type : option string)
| GetPost (id : string)
| GetProjects.

End Http.

(** ** The seed rows of [initDb] *)

Module Seed.

Definition LF : string := String (ascii_of_nat 10) EmptyString.

Definition thinking_post : Post.values :=
  Post.mkValues
    (Some "thinking")
    (Some "All I Need Is a Renaissance, Summer, and Success")
    (Some "Sitting with winter. Belief systems that don't transfer, rejections from all directions, and the refusal to borrow someone else's definition of success.")
    (Some ("# The Renaissance of Self" ++ LF ++ LF
           ++ "Winter is a time for reflection. In this post, I explore the idea of building your own definition of success rather than borrowing one from society. "
           ++ LF ++ LF ++ "### The Problem with Borrowed Success" ++ LF
           ++ "When we aim for what others want, we lose our own voice. "
           ++ LF ++ LF ++ "### Finding Your Summer" ++ LF
           ++ "It's about the internal warmth that keeps you going when the external world is cold."))
    (Some "philosophy, growth, mindset")
    (Some "Feb 8, 2026").

Definition doing_post : Post.values :=
  Post.mkValues
    (Some "doing")
    (Some "Why I'm Building This Notes Section")
    (Some "A meta-note on the purpose of this space—increasing focus, compounding ideas, and building in public.")
    (Some ("# Building in Public" ++ LF ++ LF
           ++ "The primary reason for building this notes section is simple: **increase focus and bandwidth toward research and growth**."
           ++ LF ++ LF ++ "### The Problem" ++ LF
           ++ "Ideas loop endlessly in the mind. Questions remain unexamined. Connections between concepts stay invisible because they're never written down."))
    (Some "meta, growth, focus")
    (Some "Feb 3, 2026").

(** The [VALUES] list of the insert into [posts], in its order. *)
Definition posts : list Post.values := [thinking_post; doing_post].

Definition projects : list Project.values :=
  [ Project.mkValues
      (Some "AI Research Lab")
      (Some "An interactive platform for exploring machine learning models and data science research.")
      (Some "https://picsum.photos/seed/lab/800/600")
      (Some "https://example.com/lab")
      (Some "https://github.com/praveen/lab")
      (Some "AI, ML, React");
    Project.mkValues
      (Some "Data Viz Suite")
      (Some "A collection of high-performance data visualization tools built with D3.js.")
      (Some "https://picsum.photos/seed/viz/800/600")
      (Some "https://example.com/viz")
      (Some "https://github.com/praveen/viz")
      (Some "D3, TypeScript, SVG") ].

End Seed.

(** ** [src/server.ts] *)

Module Server.
Import Js Http.

(** [x === 0] for the number [parseInt] gives; [NaN] is not [0]. *)
Definition is_zero (x : Number.t) : bool :=
  match x with
  | Number.Finite 0 => true
  | _ => false
  end.

(** The [try] block of [initDb]. *)
Definition initDb_body (client : Pool.client) : M unit :=
  Pool.client_query client Store.create_tables ;;
  postCountRes <- Pool.client_query client Store.count_posts ;;
  when (is_zero (parseInt postCountRes))
       (Pool.client_query client (Store.insert_posts Seed.posts)) ;;
  projectCountRes <- Pool.client_query client Store.count_projects ;;
  when (is_zero (parseInt projectCountRes))
       (Pool.client_query client (Store.insert_projects Seed.projects)).

Definition initDb : M unit :=
  client <- Pool.connect ;;
  try_catch_finally
    (initDb_body client)
    (fun err => console_error [Text "Error initializing database:"; Object err])
    (Pool.release client).

(** The query of [GET /api/posts]. *)
Definition posts_query (type : option string) : M (list Post.t) :=
  if truthy type
  then Pool.query (Store.select_posts_by_type type)
  else Pool.query Store.select_posts.

(** [app.get("/api/posts", ...)], with [type] for [req.query.type]: it
    is [undefined] when the request has no [type] parameter and a string
    when it has one. *)
Definition get_posts (type : option string) : M response :=
  try_catch
    (result <- posts_query type ;;
     ret (json (JArr (map post_json result))))
    (fun err => ret (status_json 500 database_error)).

(** [app.get("/api/projects", ...)]. *)
Definition projects_query : M (list Project.t) :=
  Pool.query Store.select_projects.

Definition get_projects : M response :=
  try_catch
    (result <- projects_query ;;
     ret (json (JArr (map project_json result))))
    (fun err => ret (status_json 500 database_error)).

Section ById.
Context `{TextInput}.

(** The query of [GET /api/posts/:id]. *)
Definition post_query (id : string) : M (list Post.t) :=
  Pool.query (Store.select_post_by_id id).

(** [app.get("/api/posts/:id", ...)], with [id] for [req.params.id]. *)
Definition get_post (id : string) : M response :=
  try_catch
    (result <- post_query id ;;
     match result with
     | row :: _ => ret (json (post_json row))
     | [] => ret (status_json 404 post_not_found)
     end)
    (fun err => ret (status_json 500 database_error)).

Definition handle (req : request) : M response :=
  match req with
  | GetPosts type => get_posts type
  | GetPost id => get_post id
  | GetProjects => get_projects
  end.
End ById.

Definition PORT : Z := 3000.

(** What [startServer] calls that is neither the pool nor a route: the
    mode of the process and the packages that serve the page and open
    the port. Each call may write, throw or end the process, as the
    package decides. *)
Class Host := {
  (** [process.env.NODE_ENV]. *)
  NODE_ENV : option string;
  (** [await createViteServer({ ... })], then [app.use(vite.middlewares)]. *)
  createViteServer : M unit;
  (** [app.use(express.static(...))], then [app.get("*", ...)]. *)
  serve_dist : M unit;
  (** The server takes the port: it returns once the port is bound. *)
  bind_port : Z -> M unit
}.

Section Start.
Context `{Host}.

(** [process.env.NODE_ENV !== "production"]. *)
Definition development : bool :=
  match NODE_ENV with
  | Some mode => negb (String.eqb mode "production")
  | None => true
  end.

(** [app.listen(PORT, "0.0.0.0", callback)], the callback writing the
    address with [PORT] in it once the server listens. *)
Definition listen : M unit :=
  bind_port PORT ;;
  (fun w => (Ret tt, with_listening (Some PORT) w)) ;;
  console_log "Server running on http://localhost:3000".

(** [startServer], with [DATABASE_URL] for [process.env.DATABASE_URL].
    The routes are values here: see [handle]. *)
Definition startServer (DATABASE_URL : option string) : M unit :=
  when (negb (truthy DATABASE_URL))
       (console_error
          [Text "DATABASE_URL is not set. Please provide a Neon connection string."] ;;
        process_exit 1) ;;
  initDb ;;
  (if development then createViteServer else serve_dist) ;;
  listen.

(** The module body: the pool is made lazily, [neon] is the driver's
    constructor of the unused [sql] function and may refuse its
    argument, then [startServer()] is called. *)
Definition main (neon : option string -> option error)
           (DATABASE_URL : option string) : M unit :=
  match neon DATABASE_URL with
  | Some e => throw e
  | None => startServer DATABASE_URL
  end.
End Start.

End Server.

(** ** [src/api/index.ts] *)

Module Api.
Import Js Http.

(** The module body down to the export of [app]. *)
Definition load (DATABASE_URL : option string) : M unit :=
  when (negb (truthy DATABASE_URL)) (throw (Error "DATABASE_URL is not set")).

Definition posts_query (type : option string) : M (list Post.t) :=
  if truthy type
  then Pool.query (Store.select_posts_by_type type)
  else Pool.query Store.select_posts.

(** The [catch] block shared by the three handlers. *)
Definition on_error (err : error) : M response :=
  console_error [Object err] ;;
  ret (status_json 500 database_error).

Definition get_posts (type : option string) : M response :=
  try_catch
    (result <- posts_query type ;;
     ret (json (JArr (map post_json result))))
    on_error.

Definition projects_query : M (list Project.t) :=
  Pool.query Store.select_projects.

Definition get_projects : M response :=
  try_catch
    (result <- projects_query ;;
     ret (json (JArr (map project_json result))))
    on_error.

Section ById.
Context `{TextInput}.

Definition post_query (id : string) : M (list Post.t) :=
  Pool.query (Store.select_post_by_id id).

Definition get_post (id : string) : M response :=
  try_catch
    (result <- post_query id ;;
     match result with
     | row :: _ => ret (json (post_json row))
     | [] => ret (status_json 404 post_not_found)
     end)
    on_error.

Definition handle (req : request) : M response :=
  match req with
  | GetPosts type => get_posts type
  | GetPost id => get_post id
  | GetProjects => get_projects
  end.
End ById.

End Api.

(** ** The process *)

Module Node.
Import Js.

(** The exit status of a process after its main module ran, if it
    ended: an uncaught [throw] or unhandled rejection ends it with
    status 1, [process.exit] with its code. *)
Definition run (main : M unit) (w : world) : option Z * world :=
  match main w with
  | (Ret _, w') => (None, w')
  | (Throw _, w') => (Some 1, w')
  | (Exit c, w') => (Some c, w')
  end.

(** A process that just started, over a store [s]. *)
Definition boot (s : Store.t) (f : list bool) : world :=
  mkWorld s f 0 [] [] None.

End Node.


(** ** The page: the [App] component *)

Module App.

(** How an evaluation in the browser ends: with a value, or with a
    [TypeError] thrown on the way. *)
Inductive result (A : Type) :=
| Threw
| Gave (a : A).
Arguments Threw {A}.
Arguments Gave {A} _.

(** What [await res.json()] puts in [posts] or [projects]: an array of
    rows as the server writes them, or a value that is not an array,
    such as the object of an error answer. *)
Inductive collection (A : Type) :=
| Items (l : list A)
| NotArray (v : Js.json).
Arguments Items {A} _.
Arguments NotArray {A} _.

(** What one [fetch] and the reading of its body gave: a rejection (no
    answer, or a body that is not JSON), or the value read, whatever the
    status of the answer. *)
Inductive fetched (A : Type) :=
| Rejected
| Answered (data : collection A).
Arguments Rejected {A}.
Arguments Answered {A} _.

Inductive Theme := dark | light.

(** The state variables of the component, and the console. [view] is a
    string, or [null] ([None]) once it was set from a post without
    type. *)
Record state := mk {
  view : option string;
  selectedPostId : option Z;
  posts : collection Post.t;
  projects : collection Project.t;
  theme : Theme;
  loading : bool;
  console : list string
}.

(** The [useState] defaults. *)
Definition initial : state :=
  mk (Some "about") None (Items []) (Items []) dark true [].

Definition setView (v : option string) (s : state) : state :=
  mk v (selectedPostId s) (posts s) (projects s) (theme s) (loading s) (console s).

Definition setSelectedPostId (id : option Z) (s : state) : state :=
  mk (view s) id (posts s) (projects s) (theme s) (loading s) (console s).

(** The effect run once at mount, given what its two [fetch] calls and
    the reading of their bodies gave. *)
Definition fetchData (postsRes : fetched Post.t) (projectsRes : fetched Project.t)
           (s : state) : state :=
  match postsRes, projectsRes with
  | Answered postsData, Answered projectsData =>
      mk (view s) (selectedPostId s) postsData projectsData (theme s) false
         (console s)
  | _, _ =>
      mk (view s) (selectedPostId s) (posts s) (projects s) (theme s) false
         (console s ++ ["Error fetching data:"])
  end.

Definition toggleTheme (s : state) : state :=
  mk (view s) (selectedPostId s) (posts s) (projects s)
     (match theme s with dark => light | light => dark end)
     (loading s) (console s).

Definition navigateToPost (id : Z) (s : state) : state :=
  setView (Some "post-detail") (setSelectedPostId (Some id) s).

(** [a === b] for two values that are each a string or [null]. *)
Definition same_text (a b : option string) : bool :=
  match a, b with
  | Some x, Some y => String.eqb x y
  | None, None => true
  | _, _ => false
  end.

(** [c.filter(f)]: a value that is not an array has no such method. *)
Definition array_filter {A : Type} (f : A -> bool) (c : collection A)
  : result (list A) :=
  match c with
  | Items l => Gave (filter f l)
  | NotArray _ => Threw
  end.

(** [c.find(f)], with [None] for [undefined]. *)
Definition array_find {A : Type} (f : A -> bool) (c : collection A)
  : result (option A) :=
  match c with
  | Items l => Gave (find f l)
  | NotArray _ => Threw
  end.

(** [selectedPostId ? posts.find((p) => p.id === selectedPostId) : null],
    with [None] for [null] and [undefined] alike. *)
Definition currentPost (s : state) : result (option Post.t) :=
  match selectedPostId s with
  | None => Gave None
  | Some id =>
      if id =? 0 then Gave None
      else array_find (fun p => Post.id p =? id) (posts s)
  end.

(** [project.tags.split(",")] with each piece trimmed: the chips under
    a project. [null] has no [split]. *)
Definition tag_chips (tags : Sql.text) : result (list string) :=
  match tags with
  | None => Threw
  | Some t => Gave (map JsString.trim (JsString.split "," t))
  end.

(** [l.map(f)] for an [f] that may throw. *)
Fixpoint map_each {A B : Type} (f : A -> result B) (l : list A) : result (list B) :=
  match l with
  | [] => Gave []
  | x :: xs =>
      match f x with
      | Threw => Threw
      | Gave y =>
          match map_each f xs with
          | Threw => Threw
          | Gave ys => Gave (y :: ys)
          end
      end
  end.

(** The section of the page that is shown, with the rows it shows:
    the articles of a list, the cards of the projects with their chips,
    the post of the detail page. *)
Inductive section :=
| AboutSection
| ListSection (heading : string) (articles : list Post.t)
| WorkingSection (cards : list (Project.t * list string))
| DetailSection (post : Post.t)
| NoSection.

(** One rendering of the component: [currentPost] is computed first,
    then the section that [view] selects. *)
Definition render (s : state) : result section :=
  match currentPost s with
  | Threw => Threw
  | Gave current =>
      if same_text (view s) (Some "about") then Gave AboutSection
      else if same_text (view s) (Some "thinking") || same_text (view s) (Some "doing")
      then
        match array_filter (fun p => same_text (Post.type p) (view s)) (posts s) with
        | Threw => Threw
        | Gave articles =>
            Gave (ListSection (match view s with Some v => v | None => "" end) articles)
        end
      else if same_text (view s) (Some "working")
      then
        match projects s with
        | NotArray _ => Threw
        | Items l =>
            match map_each (fun project =>
                              match tag_chips (Project.tags project) with
                              | Threw => Threw
                              | Gave chips => Gave (project, chips)
                              end) l with
            | Threw => Threw
            | Gave cards => Gave (WorkingSection cards)
            end
        end
      else if same_text (view s) (Some "post-detail")
      then
        match current with
        | Some post => Gave (DetailSection post)
        | None => Gave NoSection
        end
      else Gave NoSection
  end.

(** The button of the detail section: [setView(currentPost.type)]. It
    is there only while that section is. *)
Definition back (s : state) : state :=
  match render s with
  | Gave (DetailSection post) => setView (Post.type post) s
  | _ => s
  end.

End App.

(** ** Vocabulary of the statements below *)

Module Spec.
Import Js.

(** The next round trip to the store goes through. *)
Definition online (w : world) : bool :=
  match faults w with
  | true :: _ => false
  | _ => true
  end.

(** The world once a pooled query is over: one round trip was used, the
    store is [s], and the client is back in the pool. *)
Definition settled (s : Store.t) (w : world) : world :=
  mkWorld s (tl (faults w)) (checked_out w) (stderr w) (stdout w) (listening w).

(** [type = ty] as the [WHERE] clause decides it. *)
Definition has_type (ty : string) (r : Post.t) : bool :=
  Sql.where_holds (Sql.text_eq (Post.type r) (Some ty)).

(** Keys in descending order. *)
Definition descending {A : Type} (key : A -> Z) (l : list A) : Prop :=
  StronglySorted (fun a b => key b <= key a) l.

(** A relation that exists and holds at least one row. *)
Definition populated {A : Type} (r : option (Store.table A)) : Prop :=
  exists tb, r = Some tb /\ Store.rows tb <> [].

(** The number of rows of a relation, when it exists. *)
Definition row_count {A : Type} (r : option (Store.table A)) : option nat :=
  option_map (fun tb => length (Store.rows tb)) r.

(** The types the [CHECK] constraint of [posts] lets through. *)
Definition admitted_type (ty : Sql.text) : Prop :=
  ty = None \/ ty = Some "thinking" \/ ty = Some "doing".

(** What [GET /api/posts/:id] answers from the rows of its query. *)
Definition post_answer (rows : list Post.t) : Http.response :=
  match rows with
  | row :: _ => Http.json (Http.post_json row)
  | [] => Http.status_json 404 Http.post_not_found
  end.

(** A computation that ends in a [throw]. *)
Definition failed {A : Type} (r : outcome A * world) : Prop :=
  exists e, fst r = Throw e.

(** The store query of a request fails. *)
Definition query_fails `{TextInput} (req : Http.request) (w : world) : Prop :=
  match req with
  | Http.GetPosts type => failed (Server.posts_query type w)
  | Http.GetPost id => failed (Server.post_query id w)
  | Http.GetProjects => failed (Server.projects_query w)
  end.

(** The world once [pool.connect()] has handed out a client. *)
Definition acquired (w : world) : world :=
  mkWorld (db w) (tl (faults w)) (S (checked_out w)) (stderr w) (stdout w)
          (listening w).

(** The error a computation threw, if it threw. *)
Definition thrown {A : Type} (r : outcome A * world) : option error :=
  match fst r with
  | Throw e => Some e
  | _ => None
  end.

(** The error the store query of a request threw in [api/index.ts], if
    it threw. *)
Definition query_error `{TextInput} (req : Http.request) (w : world) : option error :=
  match req with
  | Http.GetPosts type => thrown (Api.posts_query type w)
  | Http.GetPost id => thrown (Api.post_query id w)
  | Http.GetProjects => thrown (Api.projects_query w)
  end.

(** A string the store takes as a text parameter: it has no NUL byte,
    the one thing a text of the store cannot hold. *)
Definition text_parameter (s : string) : Prop :=
  ~ In "000"%char (list_ascii_of_string s).

(** The sequence of a relation can still give the two keys of the seed
    rows: it counts up from 1 and an [id] is a 32-bit integer. It
    matters only for a relation that has no row, the others are not
    seeded; a relation that is absent gets a sequence of its own. *)
Definition room {A : Type} (r : option (Store.table A)) : Prop :=
  match r with
  | Some tb =>
      Store.rows tb = [] ->
      0 <= Store.last_value tb /\ Store.last_value tb + 2 <= 2147483647
  | None => True
  end.

(** [m], started in a world that satisfies [P], ends with an outcome
    and a world that satisfy [Q]. *)
Definition triple {A : Type} (P : world -> Prop) (m : M A)
           (Q : outcome A -> world -> Prop) : Prop :=
  forall w, P w -> Q (fst (m w)) (snd (m w)).

(** The outcome of a statement that ran. *)
Definition raised {A : Type} (r : Sql.result A) : outcome A :=
  match r with
  | inl e => Throw (DbError e)
  | inr a => Ret a
  end.

(** Every post of the store has a type the constraint lets through. *)
Definition typed (s : Store.t) : Prop :=
  forall tb, Store.posts s = Some tb ->
    Forall (fun r => admitted_type (Post.type r)) (Store.rows tb).

(** The primary key of [posts] holds: no two rows share an [id]. *)
Definition keyed (rs : list Post.t) : Prop :=
  NoDup (map Post.id rs).

(** Keys in strictly descending order. *)
Definition strictly_descending {A : Type} (key : A -> Z) (l : list A) : Prop :=
  StronglySorted (fun a b => key b < key a) l.


(** The rows [GET /api/posts] asks for: those of the given type when
    the parameter is truthy, all of them otherwise. *)
Definition selected (type : option string) (rs : list Post.t) : list Post.t :=
  if truthy type
  then filter (fun r => Sql.where_holds (Sql.text_eq (Post.type r) type)) rs
  else rs.

(** The rows a [VALUES] list becomes when the sequence stands at [n]. *)
Fixpoint numbered {V A : Type} (with_id : Z -> V -> A) (vs : list V) (n : Z)
  : list A :=
  match vs with
  | [] => []
  | v :: vs' => with_id (n + 1) v :: numbered with_id vs' (n + 1)
  end.

(** Where the sequence stands after it numbered them. *)
Definition advanced {V : Type} (vs : list V) (n : Z) : Z :=
  fold_left (fun k _ => k + 1) vs n.

(** A relation as [initDb] means to leave it: made if it was absent,
    given the seed rows if it held none, left alone otherwise. *)
Definition seeded_relation {V A : Type} (with_id : Z -> V -> A) (seeds : list V)
           (r : option (Store.table A)) : Store.table A :=
  let tb := match r with Some tb => tb | None => Store.empty_table end in
  match Store.rows tb with
  | [] => Store.mkTable (numbered with_id seeds (Store.last_value tb))
                        (advanced seeds (Store.last_value tb))
  | _ :: _ => tb
  end.

(** The keys of a relation come from its sequence: each lies between 1
    and the last value handed out. *)
Definition in_sequence {A : Type} (key : A -> Z) (tb : Store.table A) : Prop :=
  0 <= Store.last_value tb
  /\ Forall (fun r => 1 <= key r <= Store.last_value tb) (Store.rows tb).

(** What the declaration of [posts] promises of its rows: a key from
    the sequence that no other row has, a title and a date. *)
Definition posts_schema (tb : Store.table Post.t) : Prop :=
  NoDup (map Post.id (Store.rows tb))
  /\ in_sequence Post.id tb
  /\ Forall (fun r => Post.title r <> None /\ Post.date r <> None) (Store.rows tb).

(** The same for [projects]: a key and a title. *)
Definition projects_schema (tb : Store.table Project.t) : Prop :=
  NoDup (map Project.id (Store.rows tb))
  /\ in_sequence Project.id tb
  /\ Forall (fun r => Project.title r <> None) (Store.rows tb).

(** Both relations, where they exist. *)
Definition schema_holds (s : Store.t) : Prop :=
  (forall tb, Store.posts s = Some tb -> posts_schema tb)
  /\ (forall tb, Store.projects s = Some tb -> projects_schema tb).

(** The value that reading the JSON [v] puts in a state variable of the
    page: the rows themselves when [v] is the array a handler writes for
    them, [v] as it is when it is not an array. *)
Inductive holds {A : Type} (to_json : A -> json) : json -> App.collection A -> Prop :=
| holds_rows (rows : list A) :
    holds to_json (JArr (map to_json rows)) (App.Items rows)
| holds_other (v : json) :
    (forall items, v <> JArr items) -> holds to_json v (App.NotArray v).

(** The page's [fetch] got this answer of a handler and read its body. *)
Definition received {A : Type} (to_json : A -> json)
           (answer : outcome Http.response) (f : App.fetched A) : Prop :=
  exists resp data,
    answer = Ret resp /\ f = App.Answered data /\ holds to_json (Http.body resp) data.

(** Words written one after the other with a comma and a space between
    them, as the seed rows write their tags. *)
Fixpoint joined (ws : list string) : string :=
  match ws with
  | [] => ""
  | [w] => w
  | w :: rest => w ++ ", " ++ joined rest
  end.

(** A word that can stand in such a list: no comma in it, no white
    space around it. *)
Definition tag_word (w : string) : Prop :=
  ~ In ","%char (list_ascii_of_string w) /\ JsString.trim w = w.

(** What a run of [initDb] may have made of a relation that was [r]:
    nothing, the relation without rows if [r] was absent, or the
    relation as [initDb] means to leave it. *)
Definition left_as {V A : Type} (with_id : Z -> V -> A) (seeds : list V)
           (r r' : option (Store.table A)) : Prop :=
  r' = r
  \/ (r = None /\ r' = Some Store.empty_table)
  \/ r' = Some (seeded_relation with_id seeds r).

End Spec.

(** ** Sample states *)

Module Example.

(** Posts of both types, one of no type, out of key order. *)
Definition mixed_posts : Store.table Post.t :=
  Store.mkTable
    [ Post.mk 1 (Some "thinking") (Some "a") None None None (Some "d1");
      Post.mk 5 (Some "doing") (Some "b") None None None (Some "d2");
      Post.mk 3 (Some "thinking") (Some "c") None None None (Some "d3");
      Post.mk 4 None (Some "e") None None None (Some "d4") ]
    5.

(** A process over a store that holds them. *)
Definition mixed : Js.world :=
  Node.boot (Store.mk (Some mixed_posts) (Some Store.empty_table)) [].

(** A process over a store no one has touched. *)
Definition blank : Js.world := Node.boot Store.fresh [].

(** The same once [initDb] has run. *)
Definition seeded : Js.world := snd (Server.initDb blank).

(** The seeded process at a moment the store cannot be reached. *)
Definition cut_off : Js.world := Js.with_faults [true] seeded.

(** A first start in which the connection is lost under the client of
    [initDb] at its third round trip, the count of [posts]. *)
Definition interrupted : Js.world := Node.boot Store.fresh [false; false; true].

(** A development run in which the packages of the page and the port
    do their part. *)
Definition development : Server.Host :=
  {| Server.NODE_ENV := None;
     Server.createViteServer := Js.ret tt;
     Server.serve_dist := Js.ret tt;
     Server.bind_port := fun _ => Js.ret tt |}.

(** A post with a title and a date and no type. *)
Definition untyped_post : Post.values :=
  Post.mkValues None (Some "Untitled") None None None (Some "Jan 1, 2026").

(** The store right after the two relations were created. *)
Definition created : Store.t := Store.history [Store.CreateTables].

Definition seeded_posts : Store.table Post.t :=
  match Store.posts (Js.db seeded) with
  | Some tb => tb
  | None => Store.empty_table
  end.

Definition seeded_projects : Store.table Project.t :=
  match Store.projects (Js.db seeded) with
  | Some tb => tb
  | None => Store.empty_table
  end.

(** The same posts as [mixed], stored in the opposite order. *)
Definition mixed_reordered : Js.world :=
  Node.boot (Store.mk (Some (Store.mkTable (rev (Store.rows mixed_posts)) 5))
                      (Some Store.empty_table)) [].

(** Posts are there, [projects] exists but is empty and its sequence
    stands at 7: what a run that lost the connection before the second
    insert, or a cleared relation, leaves. *)
Definition half_seeded : Js.world :=
  Node.boot (Store.mk (Some mixed_posts) (Some (Store.mkTable [] 7))) [].

(** One more post, and the seeded process after it went in. *)
Definition third_post : Post.values :=
  Post.mkValues (Some "doing") (Some "Third") None None None (Some "Mar 1, 2026").

Definition grown : Js.world :=
  Node.boot (snd (Store.insert_posts [third_post] (Js.db seeded))) [].

(** The page once it fetched the posts of [mixed], on the Thinking
    list. *)
Definition page : App.state :=
  App.mk (Some "thinking") None
         (App.Items (Sql.order_by_desc Post.id (Store.rows mixed_posts)))
         (App.Items []) App.dark false [].

(** A project offered with a title and nothing else. *)
Definition bare_project : Project.values :=
  Project.mkValues (Some "Untagged") None None None None None.

(** A process over a store that took it. *)
Definition untagged : Js.world :=
  Node.boot (Store.history [Store.CreateTables; Store.InsertProjects [bare_project]]) [].

(** The same store, in a run that loses the connection at the insert
    into [projects]. *)
Definition half_seeded_cut : Js.world :=
  Node.boot (Js.db half_seeded) [false; false; false; false; true].

End Example.

(** * Properties *)

Import Js Http Spec.

(** ** The pool *)

Section PoolFacts.
Context {A : Type} (q : Store.statement A).

Lemma query_online (w : world) :
  online w = true ->
  Pool.query q w =
    (match fst (q (db w)) with
     | inl e => Throw (DbError e)
     | inr a => Ret a
     end, settled (snd (q (db w))) w).
Proof.
  destruct w as [d f c e o l]. unfold online. cbn [faults].
  intros Hon.
  unfold Pool.query, Pool.connect, Pool.round_trip, Pool.execute,
    Pool.release, try_finally, bind, settled.
  destruct f as [|[|] f]; try discriminate; cbn;
    destruct (q d) as [[err|a] s]; reflexivity.
Qed.

Lemma query_offline (w : world) :
  online w = false ->
  Pool.query q w =
    (Throw (DbError Sql.ConnectionFailure), with_faults (tl (faults w)) w).
Proof.
  destruct w as [d f c e o l]. unfold online. cbn [faults].
  intros Hoff.
  unfold Pool.query, Pool.connect, Pool.round_trip, bind.
  destruct f as [|[|] f]; try discriminate; reflexivity.
Qed.

(** A pooled query gives its client back, whatever the outcome. *)
Lemma query_releases (w : world) :
  checked_out (snd (Pool.query q w)) = checked_out w.
Proof.
  destruct (online w) eqn:Hon.
  - rewrite query_online by assumption. reflexivity.
  - rewrite query_offline by assumption. reflexivity.
Qed.
End PoolFacts.

(** A query that only reads leaves the store as it was. *)
Lemma reading_keeps_store {A : Type} (f : Store.t -> Sql.result A) (s : Store.t) :
  snd (Store.reading f s) = s.
Proof. reflexivity. Qed.

(** ** [ORDER BY ... DESC] *)

Section OrderByFacts.
Context {A : Type} (key : A -> Z).

Lemma insert_desc_perm (r : A) (l : list A) :
  Permutation (Sql.insert_desc key r l) (r :: l).
Proof.
  induction l as [|x xs IH]; cbn.
  - apply Permutation_refl.
  - destruct (key x <? key r).
    + apply Permutation_refl.
    + apply perm_trans with (x :: r :: xs).
      * apply perm_skip, IH.
      * apply perm_swap.
Qed.

Lemma order_by_desc_perm (l : list A) :
  Permutation (Sql.order_by_desc key l) l.
Proof.
  induction l as [|x xs IH]; cbn.
  - apply perm_nil.
  - eapply perm_trans; [apply insert_desc_perm|].
    apply perm_skip, IH.
Qed.

Lemma insert_desc_sorted (r : A) (l : list A) :
  descending key l -> descending key (Sql.insert_desc key r l).
Proof.
  unfold descending.
  induction l as [|x xs IH]; intros Hs; cbn.
  - constructor; constructor.
  - apply StronglySorted_inv in Hs. destruct Hs as [Hxs Hx].
    destruct (Z.ltb_spec (key x) (key r)) as [Hlt|Hge].
    + constructor.
      * constructor; assumption.
      * constructor; [lia|].
        rewrite Forall_forall in Hx |- *.
        intros y Hy. specialize (Hx y Hy). cbn in Hx. lia.
    + constructor.
      * apply IH, Hxs.
      * rewrite Forall_forall in Hx |- *.
        intros y Hy.
        apply (Permutation_in _ (insert_desc_perm r xs)) in Hy.
        destruct Hy as [<-|Hy]; [lia | apply Hx, Hy].
Qed.

Lemma order_by_desc_sorted (l : list A) :
  descending key (Sql.order_by_desc key l).
Proof.
  induction l as [|x xs IH]; cbn.
  - constructor.
  - apply insert_desc_sorted, IH.
Qed.

Lemma order_by_desc_in (l : list A) (r : A) :
  In r (Sql.order_by_desc key l) <-> In r l.
Proof.
  split; apply Permutation_in.
  - apply order_by_desc_perm.
  - apply Permutation_sym, order_by_desc_perm.
Qed.
End OrderByFacts.

(** ** The handlers, by the outcome of their query *)

(** Unfolds a handler around a query whose outcome [Hq] is known. *)
Ltac run_handler Hq :=
  unfold try_catch, bind; rewrite Hq; reflexivity.

Lemma server_get_posts_ok type w rows w' :
  Server.posts_query type w = (Ret rows, w') ->
  Server.get_posts type w = (Ret (json (JArr (map post_json rows))), w').
Proof. intros Hq. unfold Server.get_posts. run_handler Hq. Qed.

Lemma server_get_posts_err type w e w' :
  Server.posts_query type w = (Throw e, w') ->
  Server.get_posts type w = (Ret (status_json 500 database_error), w').
Proof. intros Hq. unfold Server.get_posts. run_handler Hq. Qed.

Lemma api_get_posts_ok type w rows w' :
  Api.posts_query type w = (Ret rows, w') ->
  Api.get_posts type w = (Ret (json (JArr (map post_json rows))), w').
Proof. intros Hq. unfold Api.get_posts. run_handler Hq. Qed.

Lemma api_get_posts_err type w e w' :
  Api.posts_query type w = (Throw e, w') ->
  Api.get_posts type w =
    (Ret (status_json 500 database_error),
     with_stderr (stderr w' ++ [[Object e]]) w').
Proof. intros Hq. unfold Api.get_posts. run_handler Hq. Qed.

Lemma server_get_projects_ok w rows w' :
  Server.projects_query w = (Ret rows, w') ->
  Server.get_projects w = (Ret (json (JArr (map project_json rows))), w').
Proof. intros Hq. unfold Server.get_projects. run_handler Hq. Qed.

Lemma server_get_projects_err w e w' :
  Server.projects_query w = (Throw e, w') ->
  Server.get_projects w = (Ret (status_json 500 database_error), w').
Proof. intros Hq. unfold Server.get_projects. run_handler Hq. Qed.

Lemma api_get_projects_ok w rows w' :
  Api.projects_query w = (Ret rows, w') ->
  Api.get_projects w = (Ret (json (JArr (map project_json rows))), w').
Proof. intros Hq. unfold Api.get_projects. run_handler Hq. Qed.

Lemma api_get_projects_err w e w' :
  Api.projects_query w = (Throw e, w') ->
  Api.get_projects w =
    (Ret (status_json 500 database_error),
     with_stderr (stderr w' ++ [[Object e]]) w').
Proof. intros Hq. unfold Api.get_projects. run_handler Hq. Qed.

Section ByIdFacts.
Context `{TextInput}.

Lemma server_get_post_ok id w rows w' :
  Server.post_query id w = (Ret rows, w') ->
  Server.get_post id w = (Ret (post_answer rows), w').
Proof.
  intros Hq. unfold Server.get_post, try_catch, bind. rewrite Hq.
  destruct rows; reflexivity.
Qed.

Lemma server_get_post_err id w e w' :
  Server.post_query id w = (Throw e, w') ->
  Server.get_post id w = (Ret (status_json 500 database_error), w').
Proof. intros Hq. unfold Server.get_post. run_handler Hq. Qed.

Lemma api_get_post_ok id w rows w' :
  Api.post_query id w = (Ret rows, w') ->
  Api.get_post id w = (Ret (post_answer rows), w').
Proof.
  intros Hq. unfold Api.get_post, try_catch, bind. rewrite Hq.
  destruct rows; reflexivity.
Qed.

Lemma api_get_post_err id w e w' :
  Api.post_query id w = (Throw e, w') ->
  Api.get_post id w =
    (Ret (status_json 500 database_error),
     with_stderr (stderr w' ++ [[Object e]]) w').
Proof. intros Hq. unfold Api.get_post. run_handler Hq. Qed.
End ByIdFacts.

(** The two files issue the same queries. *)
Lemma api_posts_query_eq type : Api.posts_query type = Server.posts_query type.
Proof. reflexivity. Qed.

(** A pooled query never ends the process. *)
Lemma query_no_exit {A : Type} (q : Store.statement A) w c w' :
  Pool.query q w <> (Exit c, w').
Proof.
  destruct (online w) eqn:Hon.
  - rewrite query_online by assumption.
    destruct (fst (q (db w))); intros Heq; inversion Heq.
  - rewrite query_offline by assumption. intros Heq; inversion Heq.
Qed.

(** ** Listing posts *)

Lemma has_type_spec (ty : string) (r : Post.t) :
  has_type ty r = true <-> Post.type r = Some ty.
Proof.
  unfold has_type, Sql.where_holds, Sql.text_eq.
  destruct (Post.type r) as [s|].
  - destruct (String.eqb_spec s ty) as [->|Hne].
    + split; reflexivity.
    + split; [discriminate | intros Heq; inversion Heq; contradiction].
  - split; discriminate.
Qed.

(** The filtered query, when it reaches a store that has the relation. *)
Lemma posts_query_filtered (ty : string) (w : world) (tb : Store.table Post.t) :
  ty <> "" ->
  Store.posts (db w) = Some tb ->
  online w = true ->
  Server.posts_query (Some ty) w =
    (Ret (Sql.order_by_desc Post.id (filter (has_type ty) (Store.rows tb))),
     settled (db w) w).
Proof.
  intros Hne Htb Hon.
  unfold Server.posts_query, truthy.
  destruct (String.eqb_spec ty "") as [->|_]; [contradiction|].
  cbn [negb].
  rewrite query_online by assumption.
  unfold Store.select_posts_by_type, Store.from_posts, Store.reading.
  cbn [fst snd]. rewrite Htb. reflexivity.
Qed.

(** The unfiltered query, when it reaches a store that has the relation. *)
Lemma posts_query_all (type : option string) (w : world) (tb : Store.table Post.t) :
  truthy type = false ->
  Store.posts (db w) = Some tb ->
  online w = true ->
  Server.posts_query type w =
    (Ret (Sql.order_by_desc Post.id (Store.rows tb)), settled (db w) w).
Proof.
  intros Hf Htb Hon.
  unfold Server.posts_query. rewrite Hf.
  rewrite query_online by assumption.
  unfold Store.select_posts, Store.from_posts, Store.reading.
  cbn [fst snd]. rewrite Htb. reflexivity.
Qed.

(** C1. For [type] in {thinking, doing}, [GET /api/posts?type=<type>]
    answers 200 with exactly the rows of [posts] whose [type] column is
    that very string, each as often as it is stored, in descending order
    of [id]; in both files, whenever the query reaches a store that has
    the relation. *)
Theorem list_posts_by_type (ty : string) (w : world) (tb : Store.table Post.t) :
  In ty ["thinking"; "doing"] ->
  Store.posts (db w) = Some tb ->
  online w = true ->
  exists rows : list Post.t,
    fst (Server.get_posts (Some ty) w) = Ret (mkResponse 200 (JArr (map post_json rows)))
    /\ fst (Api.get_posts (Some ty) w) = Ret (mkResponse 200 (JArr (map post_json rows)))
    /\ (forall r, In r rows <-> In r (Store.rows tb) /\ Post.type r = Some ty)
    /\ Permutation rows (filter (has_type ty) (Store.rows tb))
    /\ descending Post.id rows.
Proof.
  intros Hty Htb Hon.
  assert (Hne : ty <> "").
  { destruct Hty as [<-|[<-|[]]]; discriminate. }
  pose proof (posts_query_filtered ty w tb Hne Htb Hon) as Hq.
  exists (Sql.order_by_desc Post.id (filter (has_type ty) (Store.rows tb))).
  split; [|split; [|split; [|split]]].
  - rewrite (server_get_posts_ok _ _ _ _ Hq). reflexivity.
  - rewrite (api_get_posts_ok _ _ _ _ Hq). reflexivity.
  - intros r. rewrite order_by_desc_in, filter_In, has_type_spec. reflexivity.
  - apply order_by_desc_perm.
  - apply order_by_desc_sorted.
Qed.

Lemma list_posts_by_type_witness :
  exists rows : list Post.t,
    fst (Server.get_posts (Some "thinking") Example.mixed)
      = Ret (mkResponse 200 (JArr (map post_json rows)))
    /\ fst (Api.get_posts (Some "thinking") Example.mixed)
      = Ret (mkResponse 200 (JArr (map post_json rows)))
    /\ (forall r, In r rows <->
          In r (Store.rows Example.mixed_posts) /\ Post.type r = Some "thinking")
    /\ Permutation rows (filter (has_type "thinking") (Store.rows Example.mixed_posts))
    /\ descending Post.id rows.
Proof.
  apply (list_posts_by_type "thinking" Example.mixed Example.mixed_posts).
  - simpl. left. reflexivity.
  - reflexivity.
  - reflexivity.
Defined.

(** ** One post by its key *)

Lemma filter_key_found (rs : list Post.t) (r : Post.t) :
  keyed rs -> In r rs ->
  filter (fun x => Post.id x =? Post.id r) rs = [r].
Proof.
  unfold keyed.
  induction rs as [|x xs IH]; intros Hk Hin; [contradiction|].
  cbn in Hk. apply NoDup_cons_iff in Hk. destruct Hk as [Hx Hxs].
  assert (Hrest : forall y, In y xs -> Post.id y <> Post.id x).
  { intros y Hy Heq. apply Hx. rewrite <- Heq. apply in_map, Hy. }
  cbn [filter]. destruct Hin as [->|Hin].
  - rewrite Z.eqb_refl. f_equal.
    clear IH Hx Hxs.
    induction xs as [|y ys IHy]; [reflexivity|].
    cbn [filter].
    destruct (Z.eqb_spec (Post.id y) (Post.id r)) as [Heq|_].
    + exfalso. apply (Hrest y); [left; reflexivity | exact Heq].
    + apply IHy. intros z Hz. apply Hrest. right. exact Hz.
  - destruct (Z.eqb_spec (Post.id x) (Post.id r)) as [Heq|_].
    + exfalso. apply (Hrest r Hin). symmetry. exact Heq.
    + apply IH; assumption.
Qed.

Lemma filter_key_absent (rs : list Post.t) (n : Z) :
  (forall r, In r rs -> Post.id r <> n) ->
  filter (fun x => Post.id x =? n) rs = [].
Proof.
  induction rs as [|x xs IH]; intros Hno; [reflexivity|].
  cbn [filter].
  destruct (Z.eqb_spec (Post.id x) n) as [Heq|_].
  - exfalso. apply (Hno x); [left; reflexivity | exact Heq].
  - apply IH. intros r Hr. apply Hno. right. exact Hr.
Qed.

Section GetPostFacts.
Context `{TextInput}.

(** The query by key, when it reaches a store that has the relation
    and the store can read the parameter as an integer. *)
Lemma post_query_rows (id : string) (n : Z) (w : world) (tb : Store.table Post.t) :
  Store.posts (db w) = Some tb ->
  online w = true ->
  int4in id = Some n ->
  Server.post_query id w =
    (Ret (filter (fun r => Post.id r =? n) (Store.rows tb)), settled (db w) w).
Proof.
  intros Htb Hon Hn.
  unfold Server.post_query.
  rewrite query_online by assumption.
  unfold Store.select_post_by_id, Store.from_posts, Store.reading.
  cbn [fst snd]. rewrite Htb, Hn. reflexivity.
Qed.

(** The query by key fails whenever the store cannot read the
    parameter as an integer: the round trip is lost, the relation is
    missing, or the parameter is refused. *)
Lemma post_query_refused (id : string) (w : world) :
  int4in id = None ->
  failed (Server.post_query id w).
Proof.
  intros Hn. unfold failed, Server.post_query.
  destruct (online w) eqn:Hon.
  - rewrite query_online by assumption.
    unfold Store.select_post_by_id, Store.from_posts, Store.reading.
    cbn [fst snd]. destruct (Store.posts (db w)) as [tb|].
    + rewrite Hn. eexists. reflexivity.
    + eexists. reflexivity.
  - rewrite query_offline by assumption. eexists. reflexivity.
Qed.

(** C2. [GET /api/posts/:id], when the query reaches the store and
    [:id] reads as the integer [n]: a stored row with key [n] comes
    back alone, as an object, with status 200; when no stored row has
    key [n] the answer is 404 with [{"error":"Post not found"}], not
    500. *)
Theorem get_post_by_id (id : string) (n : Z) (w : world) (tb : Store.table Post.t) :
  Store.posts (db w) = Some tb ->
  keyed (Store.rows tb) ->
  online w = true ->
  int4in id = Some n ->
  (forall r, In r (Store.rows tb) -> Post.id r = n ->
     fst (Server.get_post id w) = Ret (mkResponse 200 (post_json r))
     /\ fst (Api.get_post id w) = Ret (mkResponse 200 (post_json r)))
  /\ ((forall r, In r (Store.rows tb) -> Post.id r <> n) ->
      fst (Server.get_post id w) = Ret (mkResponse 404 post_not_found)
      /\ fst (Api.get_post id w) = Ret (mkResponse 404 post_not_found)
      /\ fst (Server.get_post id w) <> Ret (mkResponse 500 database_error)
      /\ fst (Api.get_post id w) <> Ret (mkResponse 500 database_error)).
Proof.
  intros Htb Hk Hon Hn.
  pose proof (post_query_rows id n w tb Htb Hon Hn) as Hq.
  rewrite (server_get_post_ok _ _ _ _ Hq).
  rewrite (api_get_post_ok _ _ _ _ Hq).
  cbn [fst]. split.
  - intros r Hin <-. rewrite (filter_key_found _ _ Hk Hin).
    split; reflexivity.
  - intros Hno. rewrite (filter_key_absent _ _ Hno). cbn.
    repeat split; try reflexivity; discriminate.
Qed.
End GetPostFacts.

Lemma get_post_by_id_witness :
  (fst (@Server.get_post decimal_input "9999" Example.seeded)
     = Ret (mkResponse 404 post_not_found)
   /\ fst (@Api.get_post decimal_input "9999" Example.seeded)
     = Ret (mkResponse 404 post_not_found)
   /\ fst (@Server.get_post decimal_input "9999" Example.seeded)
     <> Ret (mkResponse 500 database_error)
   /\ fst (@Api.get_post decimal_input "9999" Example.seeded)
     <> Ret (mkResponse 500 database_error))
  /\ exists r, Post.id r = 2 /\ Post.type r = Some "doing"
     /\ fst (@Server.get_post decimal_input "2" Example.seeded)
        = Ret (mkResponse 200 (post_json r)).
Proof.
  assert (Hk : keyed (Store.rows Example.seeded_posts)).
  { unfold keyed. vm_compute. repeat constructor; simpl; intuition discriminate. }
  split.
  - apply (@get_post_by_id decimal_input "9999" 9999 Example.seeded
             Example.seeded_posts);
      [reflexivity | exact Hk | reflexivity | reflexivity |].
    intros r Hin. vm_compute in Hin.
    destruct Hin as [<-|[<-|[]]]; discriminate.
  - exists (Post.with_id 2 (nth 1 Seed.posts (Post.mkValues None None None None None None))).
    split; [reflexivity|]. split; [reflexivity|].
    apply (@get_post_by_id decimal_input "2" 2 Example.seeded
             Example.seeded_posts);
      [reflexivity | exact Hk | reflexivity | reflexivity | | reflexivity].
    vm_compute. right. left. reflexivity.
Defined.

(** ** Failures of the store *)

(** A lost round trip fails any pooled query. *)
Lemma query_fails_offline {A : Type} (q : Store.statement A) (w : world) :
  online w = false -> failed (Pool.query q w).
Proof.
  intros Hoff. unfold failed. rewrite query_offline by assumption.
  eexists. reflexivity.
Qed.

(** A pooled query ends with rows or with a [throw]. *)
Lemma query_ret_or_throw {A : Type} (q : Store.statement A) (w : world) :
  (exists rows w', Pool.query q w = (Ret rows, w'))
  \/ (exists e w', Pool.query q w = (Throw e, w')).
Proof.
  destruct (Pool.query q w) as [[rows|e|c] w'] eqn:Hq.
  - left. eauto.
  - right. eauto.
  - exfalso. exact (query_no_exit q w c w' Hq).
Qed.

Lemma posts_query_ret_or_throw (type : option string) (w : world) :
  (exists rows w', Server.posts_query type w = (Ret rows, w'))
  \/ (exists e w', Server.posts_query type w = (Throw e, w')).
Proof.
  unfold Server.posts_query. destruct (truthy type); apply query_ret_or_throw.
Qed.

Section FailureFacts.
Context `{TextInput}.

Lemma query_fails_when_offline (req : request) (w : world) :
  online w = false -> query_fails req w.
Proof.
  intros Hoff. destruct req as [type|id|]; cbn.
  - unfold Server.posts_query.
    destruct (truthy type); apply query_fails_offline, Hoff.
  - apply query_fails_offline, Hoff.
  - apply query_fails_offline, Hoff.
Qed.

(** C3. For each of the three read endpoints, in both files: when the
store query fails, the answer is 500 with exactly
[{"error":"Database error"}], the same for every error; when it
does not fail the answer is 200, or 404 with
[{"error":"Post not found"}], never 500; and a lost connection, or an
[:id] the store cannot read, does fail the query. *)
Theorem store_failure_is_database_error (req : request) (w : world) :
  (query_fails req w ->
     fst (Server.handle req w) = Ret (mkResponse 500 database_error)
     /\ fst (Api.handle req w) = Ret (mkResponse 500 database_error))
  /\ (~ query_fails req w ->
      exists resp,
        fst (Server.handle req w) = Ret resp
        /\ fst (Api.handle req w) = Ret resp
        /\ (status resp = 200
            \/ status resp = 404 /\ body resp = post_not_found))
  /\ (online w = false -> query_fails req w)
  /\ (forall id, req = GetPost id -> int4in id = None -> query_fails req w).
Proof.
  split; [|split; [|split]].
  - intros Hf. destruct req as [type|id|]; cbn in Hf; cbn [Server.handle Api.handle].
    + destruct Hf as [e He].
      destruct (Server.posts_query type w) as [o w'] eqn:Hq.
      cbn in He. subst o.
      rewrite (server_get_posts_err _ _ _ _ Hq), (api_get_posts_err _ _ _ _ Hq).
      split; reflexivity.
    + destruct Hf as [e He].
      destruct (Server.post_query id w) as [o w'] eqn:Hq.
      cbn in He. subst o.
      rewrite (server_get_post_err _ _ _ _ Hq), (api_get_post_err _ _ _ _ Hq).
      split; reflexivity.
    + destruct Hf as [e He].
      destruct (Server.projects_query w) as [o w'] eqn:Hq.
      cbn in He. subst o.
      rewrite (server_get_projects_err _ _ _ Hq), (api_get_projects_err _ _ _ Hq).
      split; reflexivity.
  - intros Hok. destruct req as [type|id|]; cbn in Hok; cbn [Server.handle Api.handle].
    + destruct (posts_query_ret_or_throw type w) as [[rows [w' Hq]]|[e [w' Hq]]].
      * rewrite (server_get_posts_ok _ _ _ _ Hq), (api_get_posts_ok _ _ _ _ Hq).
        eexists. split; [reflexivity|]. split; [reflexivity|]. left. reflexivity.
      * exfalso. apply Hok. exists e. rewrite Hq. reflexivity.
    + destruct (query_ret_or_throw (Store.select_post_by_id id) w)
        as [[rows [w' Hq]]|[e [w' Hq]]].
      * rewrite (server_get_post_ok _ _ _ _ Hq), (api_get_post_ok _ _ _ _ Hq).
        eexists. split; [reflexivity|]. split; [reflexivity|].
        destruct rows; cbn; [right; split; reflexivity | left; reflexivity].
      * exfalso. apply Hok. exists e. unfold Server.post_query. rewrite Hq. reflexivity.
    + destruct (query_ret_or_throw Store.select_projects w)
        as [[rows [w' Hq]]|[e [w' Hq]]].
      * rewrite (server_get_projects_ok _ _ _ Hq), (api_get_projects_ok _ _ _ Hq).
        eexists. split; [reflexivity|]. split; [reflexivity|]. left. reflexivity.
      * exfalso. apply Hok. exists e. unfold Server.projects_query. rewrite Hq. reflexivity.
  - apply query_fails_when_offline.
  - intros id -> Hid. apply post_query_refused, Hid.
Qed.

(** C10. [GET /api/posts/:id] hands [:id] to the store as it came: when
    the store cannot read it as an integer the query fails, whatever
    the state of the store, and the answer is 500 with
    [{"error":"Database error"}] and not the 404 of a missing post. *)
Theorem get_post_unreadable_id (id : string) (w : world) :
  int4in id = None ->
  failed (Server.post_query id w)
  /\ fst (Server.get_post id w) = Ret (mkResponse 500 database_error)
  /\ fst (Api.get_post id w) = Ret (mkResponse 500 database_error)
  /\ fst (Server.get_post id w) <> Ret (mkResponse 404 post_not_found)
  /\ fst (Api.get_post id w) <> Ret (mkResponse 404 post_not_found).
Proof.
  intros Hn.
  pose proof (post_query_refused id w Hn) as Hf.
  split; [exact Hf|].
  destruct Hf as [e He].
  destruct (Server.post_query id w) as [o w'] eqn:Hq.
  cbn in He. subst o.
  rewrite (server_get_post_err _ _ _ _ Hq), (api_get_post_err _ _ _ _ Hq).
  cbn. repeat split; try reflexivity; discriminate.
Qed.
End FailureFacts.

(** ** Counting rows *)

Lemma number_of_uint (d : Decimal.uint) :
  forall (seen : bool) (a : nat),
    Lex.number Lex.digit 10 (NilEmpty.string_of_uint d) seen (Z.of_nat a)
    = (match d with Decimal.Nil => seen | _ => true end,
       Z.of_nat (Nat.of_uint_acc d a), "").
Proof.
  induction d as [|d IH|d IH|d IH|d IH|d IH|d IH|d IH|d IH|d IH|d IH];
    intros seen a; [reflexivity|..];
    cbn [NilEmpty.string_of_uint Lex.number Nat.of_uint_acc];
    change (Lex.digit _) with (Some 0) || change (Lex.digit _) with (Some 1)
    || change (Lex.digit _) with (Some 2) || change (Lex.digit _) with (Some 3)
    || change (Lex.digit _) with (Some 4) || change (Lex.digit _) with (Some 5)
    || change (Lex.digit _) with (Some 6) || change (Lex.digit _) with (Some 7)
    || change (Lex.digit _) with (Some 8) || change (Lex.digit _) with (Some 9);
    cbv iota;
    match goal with
    | |- Lex.number _ _ _ _ ?acc = (_, Z.of_nat (Nat.of_uint_acc _ ?n), _) =>
        replace acc with (Z.of_nat n)
          by (rewrite ?Nat2Z.inj_succ, Nat.tail_mul_spec, Nat2Z.inj_mul; cbn; lia)
    end;
    rewrite IH; destruct d; reflexivity.
Qed.

Lemma to_uint_not_nil (n : nat) : Nat.to_uint n <> Decimal.Nil.
Proof.
  intros Hnil.
  pose proof (Unsigned.of_to n) as Hn.
  rewrite Hnil in Hn. cbn in Hn. subst n. discriminate Hnil.
Qed.

(** White space is looked for at the front only: a string that starts
    with a plain character that is not white space is left as it is. *)
Lemma strip_kept (a : ascii) (r : string) :
  Lex.is_space a = false ->
  (JsString.byte a <? 128)%nat = true ->
  JsString.strip false (String a r) = String a r.
Proof.
  intros Hs Hb. apply Nat.ltb_lt in Hb.
  assert (H2 : forall b, JsString.space2 a b = false).
  { intros b. unfold JsString.space2.
    destruct (Nat.eqb_spec (JsString.byte a) 194) as [Heq|_]; [lia | reflexivity]. }
  assert (H3 : forall b c, JsString.space3 a b c = false).
  { intros b c. unfold JsString.space3.
    destruct (Nat.eqb_spec (JsString.byte a) 225) as [Heq|_]; [lia|].
    destruct (Nat.eqb_spec (JsString.byte a) 226) as [Heq|_]; [lia|].
    destruct (Nat.eqb_spec (JsString.byte a) 227) as [Heq|_]; [lia|].
    destruct (Nat.eqb_spec (JsString.byte a) 239) as [Heq|_]; [lia|].
    reflexivity. }
  cbn [JsString.strip]. rewrite Hs.
  destruct r as [|b r2]; [reflexivity|]. rewrite H2.
  destruct r2 as [|c r3]; [reflexivity|]. rewrite H3. reflexivity.
Qed.

(** [parseInt] reads a string of decimal digits as the number they
    write, rounded as a double is. *)
Lemma parseInt_digits (d : Decimal.uint) :
  d <> Decimal.Nil ->
  parseInt (NilEmpty.string_of_uint d)
  = Number.of_nonneg (Z.of_nat (Nat.of_uint d)).
Proof.
  intros Hnil. unfold parseInt, Nat.of_uint, JsString.trimStart.
  assert (Hnum : Lex.number Lex.digit 10 (NilEmpty.string_of_uint d) false 0
                 = (true, Z.of_nat (Nat.of_uint_acc d 0), "")).
  { change 0 with (Z.of_nat 0). rewrite (number_of_uint d false 0).
    destruct d; [contradiction|reflexivity..]. }
  destruct d as [|d|d|d|d|d|d|d|d|d|d]; [contradiction|..].
  1: destruct d as [|d|d|d|d|d|d|d|d|d|d].
  all: cbn [NilEmpty.string_of_uint] in *.
  all: rewrite strip_kept by reflexivity.
  all: cbv -[Lex.number Lex.digit Z.of_nat Nat.of_uint_acc Z.mul
             NilEmpty.string_of_uint Number.of_nonneg Number.negate].
  all: rewrite Hnum; reflexivity.
Qed.

Lemma parseInt_int8out (n : nat) :
  parseInt (int8out n) = Number.of_nonneg (Z.of_nat n).
Proof.
  unfold int8out.
  rewrite parseInt_digits by apply to_uint_not_nil.
  rewrite Unsigned.of_to. reflexivity.
Qed.

(** Rounding never turns a count into zero. *)
Lemma of_nonneg_zero (a : Z) :
  0 <= a -> (Number.of_nonneg a = Number.Finite 0 <-> a = 0).
Proof.
  intros Ha. unfold Number.of_nonneg.
  destruct (Z.ltb_spec a (2 ^ 53)) as [Hsmall|Hbig].
  - split; [intros Heq; injection Heq as Heq; exact Heq | intros ->; reflexivity].
  - split; [|intros ->; exfalso; apply (Z.lt_irrefl 0); eapply Z.lt_le_trans;
                [|exact Hbig]; reflexivity].
    assert (Hpos : 0 < a) by (eapply Z.lt_le_trans; [|exact Hbig]; reflexivity).
    assert (Hlog : 53 <= Z.log2 a).
    { change 53 with (Z.log2 (2 ^ 53)). apply Z.log2_le_mono, Hbig. }
    set (e := Z.log2 a - 52).
    assert (He : 0 <= e) by (subst e; lia).
    assert (Hq : 0 < Z.shiftr a e).
    { rewrite Z.shiftr_div_pow2 by exact He.
      apply Z.div_str_pos. split; [apply Z.pow_pos_nonneg; lia|].
      apply Z.le_trans with (2 ^ Z.log2 a).
      - apply Z.pow_le_mono_r; subst e; lia.
      - apply Z.log2_spec, Hpos. }
    set (q := Z.shiftr a e) in *.
    match goal with
    | |- context [if ?c then q + 1 else q] =>
        set (q' := if c then q + 1 else q);
        assert (Hq' : 0 < q') by (subst q'; destruct c; lia)
    end.
    assert (Hval : 0 < Z.shiftl q' e).
    { rewrite Z.shiftl_mul_pow2 by exact He.
      apply Z.mul_pos_pos; [exact Hq' | apply Z.pow_pos_nonneg; lia]. }
    destruct (1024 <=? Z.log2 (Z.shiftl q' e)); [discriminate|].
    intros Heq. injection Heq as Heq. lia.
Qed.

(** The test [parseInt(res.rows[0].count) === 0] holds exactly on an
    empty relation. *)
Lemma count_is_zero (n : nat) :
  Server.is_zero (parseInt (int8out n)) = (n =? 0)%nat.
Proof.
  rewrite parseInt_int8out.
  destruct n as [|n]; [reflexivity|].
  change (S n =? 0)%nat with false.
  destruct (Number.of_nonneg (Z.of_nat (S n))) as [|neg|z] eqn:Hz; try reflexivity.
  destruct z; try reflexivity.
  apply of_nonneg_zero in Hz; lia.
Qed.

Lemma store_failure_is_database_error_witness :
  (fst (@Server.handle decimal_input (GetPosts (Some "doing")) Example.cut_off)
     = Ret (mkResponse 500 database_error)
   /\ fst (@Api.handle decimal_input (GetPosts (Some "doing")) Example.cut_off)
     = Ret (mkResponse 500 database_error))
  /\ exists resp,
       fst (@Server.handle decimal_input (GetPost "9999") Example.seeded) = Ret resp
       /\ fst (@Api.handle decimal_input (GetPost "9999") Example.seeded) = Ret resp
       /\ (status resp = 200 \/ status resp = 404 /\ body resp = post_not_found).
Proof.
  split.
  - destruct (@store_failure_is_database_error decimal_input
                (GetPosts (Some "doing")) Example.cut_off) as [Hfail [_ [Hoff _]]].
    apply Hfail, Hoff. reflexivity.
  - destruct (@store_failure_is_database_error decimal_input
                (GetPost "9999") Example.seeded) as [_ [Hok _]].
    apply Hok. intros [e He]. vm_compute in He. discriminate He.
Defined.

Lemma get_post_unreadable_id_witness :
  failed (@Server.post_query decimal_input "abc" Example.seeded)
  /\ fst (@Server.get_post decimal_input "abc" Example.seeded)
     = Ret (mkResponse 500 database_error)
  /\ fst (@Api.get_post decimal_input "abc" Example.seeded)
     = Ret (mkResponse 500 database_error)
  /\ fst (@Server.get_post decimal_input "abc" Example.seeded)
     <> Ret (mkResponse 404 post_not_found)
  /\ fst (@Api.get_post decimal_input "abc" Example.seeded)
     <> Ret (mkResponse 404 post_not_found).
Proof.
  apply (@get_post_unreadable_id decimal_input "abc" Example.seeded).
  reflexivity.
Defined.

(** ** Reasoning about effects *)

Section TripleRules.
Context {A B : Type}.

Lemma triple_ret (a : A) (P : world -> Prop) (Q : outcome A -> world -> Prop) :
  (forall w, P w -> Q (Ret a) w) -> triple P (ret a) Q.
Proof. intros HQ w HP. apply HQ, HP. Qed.

Lemma triple_bind (m : M A) (k : A -> M B) (P : world -> Prop)
      (R : A -> world -> Prop) (Q : outcome B -> world -> Prop) :
  triple P m (fun o w =>
                match o with
                | Ret a => R a w
                | Throw e => Q (Throw e) w
                | Exit c => Q (Exit c) w
                end) ->
  (forall a, triple (R a) (k a) Q) ->
  triple P (bind m k) Q.
Proof.
  intros Hm Hk w HP. specialize (Hm w HP). unfold bind.
  destruct (m w) as [[a|e|c] w']; cbn [fst snd] in *.
  - apply Hk, Hm.
  - exact Hm.
  - exact Hm.
Qed.

Lemma triple_weaken (m : M A) (P : world -> Prop)
      (Q Q' : outcome A -> world -> Prop) :
  triple P m Q -> (forall o w, Q o w -> Q' o w) -> triple P m Q'.
Proof. intros Hm HQ w HP. apply HQ, Hm, HP. Qed.
End TripleRules.

Lemma triple_when (b : bool) (m : M unit) (P : world -> Prop)
      (Q : outcome unit -> world -> Prop) :
  (b = true -> triple P m Q) ->
  (b = false -> forall w, P w -> Q (Ret tt) w) ->
  triple P (when b m) Q.
Proof.
  intros Hm Hskip. destruct b; cbn [when].
  - apply Hm. reflexivity.
  - apply triple_ret, Hskip. reflexivity.
Qed.

(** A statement on a checked-out client, by the fate of its round
    trip. *)
Lemma client_query_online {A : Type} (c : Pool.client) (q : Store.statement A)
      (w : world) :
  online w = true ->
  Pool.client_query c q w
  = (raised (fst (q (db w))), settled (snd (q (db w))) w).
Proof.
  destruct w as [d f n e o l]. unfold online. cbn [faults]. intros Hon.
  unfold Pool.client_query, Pool.client_round_trip, Pool.execute, bind, settled.
  destruct f as [|[|] f]; try discriminate; cbn;
    destruct (q d) as [[err|a] s]; reflexivity.
Qed.

Lemma client_query_offline {A : Type} (c : Pool.client) (q : Store.statement A)
      (w : world) :
  online w = false ->
  Pool.client_query c q w = (Exit 1, with_faults (tl (faults w)) w).
Proof.
  destruct w as [d f n e o l]. unfold online. cbn [faults]. intros Hoff.
  unfold Pool.client_query, Pool.client_round_trip, bind.
  destruct f as [|[|] f]; try discriminate; reflexivity.
Qed.

Lemma triple_client_query {A : Type} (c : Pool.client) (q : Store.statement A)
      (P : world -> Prop) (Q : outcome A -> world -> Prop) :
  (forall w, P w -> online w = false ->
     Q (Exit 1) (with_faults (tl (faults w)) w)) ->
  (forall w, P w -> online w = true ->
     Q (raised (fst (q (db w)))) (settled (snd (q (db w))) w)) ->
  triple P (Pool.client_query c q) Q.
Proof.
  intros Hoff Hon w HP.
  destruct (online w) eqn:Hw.
  - rewrite client_query_online by assumption. apply Hon; assumption.
  - rewrite client_query_offline by assumption. apply Hoff; assumption.
Qed.

(** ** The schema initialiser *)

(** The [try] block of [initDb] touches the store and uses round trips,
    nothing else: what holds of the rest of the world holds after it,
    however it ends. *)
Lemma initDb_body_invariant (c : Pool.client) (I : world -> Prop) :
  (forall w s f, I w ->
     I (mkWorld s f (checked_out w) (stderr w) (stdout w) (listening w))) ->
  triple I (Server.initDb_body c) (fun _ w => I w).
Proof.
  intros Hframe.
  assert (Hq : forall (A : Type) (q : Store.statement A),
             triple I (Pool.client_query c q)
                    (fun o w => match o with
                                | Ret _ => I w
                                | Throw _ => I w
                                | Exit _ => I w
                                end)).
  { intros A q. apply triple_client_query.
    - intros w HI _. apply (Hframe w (db w) (tl (faults w)) HI).
    - intros w HI _.
      destruct (fst (q (db w))); cbn;
        apply (Hframe w (snd (q (db w))) (tl (faults w)) HI). }
  assert (Hlast : forall (q : Store.statement unit),
             triple I (Pool.client_query c q) (fun _ w => I w)).
  { intros q. eapply triple_weaken; [apply Hq|].
    intros o w Hw. destruct o; exact Hw. }
  unfold Server.initDb_body.
  eapply triple_bind with (R := fun _ w => I w); [apply Hq|]. intros ?.
  eapply triple_bind with (R := fun _ w => I w); [apply Hq|]. intros postCountRes.
  eapply triple_bind with (R := fun _ w => I w).
  { apply triple_when; intros _; [apply Hq | intros w HI; exact HI]. }
  intros ?.
  eapply triple_bind with (R := fun _ w => I w); [apply Hq|]. intros projectCountRes.
  apply triple_when; intros _; [apply Hlast | intros w HI; exact HI].
Qed.

(** Nothing in the [try] block of [initDb] hands out or takes back a
    client, or writes to the console. *)
Lemma initDb_body_frame (c : Pool.client) (w : world) :
  checked_out (snd (Server.initDb_body c w)) = checked_out w
  /\ stderr (snd (Server.initDb_body c w)) = stderr w
  /\ stdout (snd (Server.initDb_body c w)) = stdout w
  /\ listening (snd (Server.initDb_body c w)) = listening w.
Proof.
  apply (initDb_body_invariant c
           (fun w' => checked_out w' = checked_out w /\ stderr w' = stderr w
                      /\ stdout w' = stdout w /\ listening w' = listening w)).
  - intros w' s f Hw'. exact Hw'.
  - repeat split.
Qed.

Lemma connect_online (w : world) :
  online w = true -> Pool.connect w = (Ret Pool.Client, acquired w).
Proof.
  destruct w as [d f n e o l]. unfold online. cbn [faults]. intros Hon.
  unfold Pool.connect, Pool.round_trip, bind, acquired.
  destruct f as [|[|] f]; try discriminate; reflexivity.
Qed.

Lemma connect_offline (w : world) :
  online w = false ->
  Pool.connect w =
    (Throw (DbError Sql.ConnectionFailure), with_faults (tl (faults w)) w).
Proof.
  destruct w as [d f n e o l]. unfold online. cbn [faults]. intros Hoff.
  unfold Pool.connect, Pool.round_trip, bind.
  destruct f as [|[|] f]; try discriminate; reflexivity.
Qed.

(** [initDb] once the client is there, by the outcome of its [try] block. *)
Lemma initDb_online (w : world) :
  online w = true ->
  Server.initDb w =
    match Server.initDb_body Pool.Client (acquired w) with
    | (Ret a, w2) => (Ret a, snd (Pool.release Pool.Client w2))
    | (Throw e, w2) =>
        (Ret tt,
         snd (Pool.release Pool.Client
                (with_stderr
                   (stderr w2 ++ [[Text "Error initializing database:"; Object e]])
                   w2)))
    | (Exit code, w2) => (Exit code, w2)
    end.
Proof.
  intros Hon. unfold Server.initDb, bind.
  rewrite connect_online by assumption.
  unfold try_catch_finally, try_finally, try_catch.
  destruct (Server.initDb_body Pool.Client (acquired w)) as [[a|e|code] w2];
    reflexivity.
Qed.

Section Startup.
Context `{Server.Host}.

(** When [pool.connect()] itself fails there is no client to release:
    [initDb] throws past its [try] block, which it has not entered,
    nothing is written, and [startServer] ends with that rejection. *)
Lemma initDb_without_client (w : world) :
  online w = false ->
  fst (Server.initDb w) = Throw (DbError Sql.ConnectionFailure)
  /\ checked_out (snd (Server.initDb w)) = checked_out w
  /\ stderr (snd (Server.initDb w)) = stderr w
  /\ forall url, truthy url = true ->
       fst (Node.run (Server.startServer url) w) = Some 1.
Proof.
  intros Hoff.
  assert (Hrun : Server.initDb w
                 = (Throw (DbError Sql.ConnectionFailure),
                    with_faults (tl (faults w)) w)).
  { unfold Server.initDb, bind. rewrite connect_offline by assumption. reflexivity. }
  rewrite Hrun. repeat split.
  intros url Hurl.
  unfold Node.run, Server.startServer, bind, when. rewrite Hurl. cbn [negb ret].
  rewrite Hrun. reflexivity.
Qed.

(** C8. [initDb] wraps its statements in [try], [catch] and [finally]
    so as to log an error, release the client and go on, and it does so
    for an error a statement throws ([initDb_online]). Not so when the
    connection is lost under the client during the creation of the
    relations, or during the count that follows: the process ends there
    with status 1, the client is still checked out, nothing was written
    to the console, and [startServer] does not reach [listen]. *)
Theorem initDb_lost_client_ends_process (w : world) (f : list bool) :
  faults w = false :: true :: f \/ faults w = false :: false :: true :: f ->
  fst (Server.initDb w) = Exit 1
  /\ checked_out (snd (Server.initDb w)) = S (checked_out w)
  /\ stderr (snd (Server.initDb w)) = stderr w
  /\ forall url, truthy url = true ->
       fst (Node.run (Server.startServer url) w) = Some 1
       /\ listening (snd (Node.run (Server.startServer url) w)) = listening w
       /\ stderr (snd (Node.run (Server.startServer url) w)) = stderr w.
Proof.
  intros Hf.
  assert (Hrun : exists w', Server.initDb w = (Exit 1, w')
                            /\ checked_out w' = S (checked_out w)
                            /\ stderr w' = stderr w
                            /\ listening w' = listening w).
  { destruct w as [d fl n e o l]. cbn [faults] in Hf.
    destruct Hf as [->| ->]; eexists; (split; [reflexivity|]); repeat split. }
  destruct Hrun as [w' [Hrun [Hco [Herr Hl]]]].
  rewrite Hrun. cbn [fst snd].
  split; [reflexivity|]. split; [exact Hco|]. split; [exact Herr|].
  intros url Hurl.
  unfold Node.run, Server.startServer, bind, when. rewrite Hurl. cbn [negb ret].
  rewrite Hrun. cbn [fst snd]. repeat split; assumption.
Qed.

End Startup.

Lemma initDb_lost_client_ends_process_witness :
  fst (Server.initDb Example.interrupted) = Exit 1
  /\ checked_out (snd (Server.initDb Example.interrupted))
     = S (checked_out Example.interrupted)
  /\ stderr (snd (Server.initDb Example.interrupted)) = stderr Example.interrupted
  /\ forall url, truthy url = true ->
       fst (Node.run (@Server.startServer Example.development url)
                     Example.interrupted) = Some 1
       /\ listening (snd (Node.run (@Server.startServer Example.development url)
                                   Example.interrupted))
          = listening Example.interrupted
       /\ stderr (snd (Node.run (@Server.startServer Example.development url)
                                Example.interrupted))
          = stderr Example.interrupted.
Proof.
  apply (@initDb_lost_client_ends_process Example.development
           Example.interrupted []).
  right. reflexivity.
Defined.

(** On a store whose two relations hold rows, the [try] block of
    [initDb] changes nothing in the store, wherever it stops. *)
Lemma initDb_body_populated (c : Pool.client) (s : Store.t) :
  populated (Store.posts s) ->
  populated (Store.projects s) ->
  triple (fun w => db w = s) (Server.initDb_body c) (fun _ w => db w = s).
Proof.
  intros [tbp [Hp Hprows]] [tbj [Hj Hjrows]].
  assert (Hcreate : snd (Store.create_tables s) = s).
  { destruct s as [p j]. cbn in Hp, Hj. subst p j. reflexivity. }
  assert (Hnp : (length (Store.rows tbp) =? 0)%nat = false).
  { destruct (Store.rows tbp); [contradiction | reflexivity]. }
  assert (Hnj : (length (Store.rows tbj) =? 0)%nat = false).
  { destruct (Store.rows tbj); [contradiction | reflexivity]. }
  unfold Server.initDb_body.
  eapply triple_bind with (R := fun _ w => db w = s).
  { apply triple_client_query.
    - intros w Hw _. exact Hw.
    - intros w Hw _. rewrite Hw. cbn [Store.create_tables fst raised].
      cbn [settled db]. exact Hcreate. }
  intros ?.
  eapply triple_bind
    with (R := fun a w => a = int8out (length (Store.rows tbp)) /\ db w = s).
  { apply triple_client_query.
    - intros w Hw _. exact Hw.
    - intros w Hw _. rewrite Hw.
      unfold Store.count_posts, Store.from_posts, Store.reading.
      cbn [fst snd]. rewrite Hp. cbn. split; reflexivity. }
  intros postCountRes.
  eapply triple_bind with (R := fun _ w => db w = s).
  { apply triple_when.
    - intros Hz. intros w [-> _]. rewrite count_is_zero, Hnp in Hz. discriminate Hz.
    - intros _ w [_ Hw]. exact Hw. }
  intros ?.
  eapply triple_bind
    with (R := fun a w => a = int8out (length (Store.rows tbj)) /\ db w = s).
  { apply triple_client_query.
    - intros w Hw _. exact Hw.
    - intros w Hw _. rewrite Hw.
      unfold Store.count_projects, Store.from_projects, Store.reading.
      cbn [fst snd]. rewrite Hj. cbn. split; reflexivity. }
  intros projectCountRes.
  apply triple_when.
  - intros Hz. intros w [-> _]. rewrite count_is_zero, Hnj in Hz. discriminate Hz.
  - intros _ w [_ Hw]. exact Hw.
Qed.

(** [initDb] leaves alone a store whose two relations hold rows. *)
Lemma initDb_keeps_populated (w : world) :
  populated (Store.posts (db w)) ->
  populated (Store.projects (db w)) ->
  db (snd (Server.initDb w)) = db w.
Proof.
  intros Hp Hj.
  destruct (online w) eqn:Hon.
  - rewrite initDb_online by assumption.
    pose proof (initDb_body_populated Pool.Client (db w) Hp Hj (acquired w) eq_refl)
      as Hbody.
    destruct (Server.initDb_body Pool.Client (acquired w)) as [[a|e|code] w2];
      cbn [fst snd] in Hbody; exact Hbody.
  - unfold Server.initDb, bind. rewrite connect_offline by assumption. reflexivity.
Qed.

(** C4. On a store whose [posts] and [projects] relations already hold
    rows, as after a first run, a run of [initDb] inserts nothing: the
    store is the same after it, and so is the number of rows of each
    relation, whatever happens to the connection on the way. *)
Theorem initDb_idempotent (w : world) :
  populated (Store.posts (db w)) ->
  populated (Store.projects (db w)) ->
  db (snd (Server.initDb w)) = db w
  /\ row_count (Store.posts (db (snd (Server.initDb w))))
     = row_count (Store.posts (db w))
  /\ row_count (Store.projects (db (snd (Server.initDb w))))
     = row_count (Store.projects (db w)).
Proof.
  intros Hp Hj.
  rewrite (initDb_keeps_populated w Hp Hj).
  repeat split; reflexivity.
Qed.

Lemma initDb_idempotent_witness :
  db (snd (Server.initDb Example.seeded)) = db Example.seeded
  /\ row_count (Store.posts (db (snd (Server.initDb Example.seeded))))
     = row_count (Store.posts (db Example.seeded))
  /\ row_count (Store.projects (db (snd (Server.initDb Example.seeded))))
     = row_count (Store.projects (db Example.seeded)).
Proof.
  apply (initDb_idempotent Example.seeded).
  - exists Example.seeded_posts. split; [reflexivity|].
    vm_compute. discriminate.
  - eexists. split; [reflexivity|]. vm_compute. discriminate.
Defined.

(** ** A first run *)

Lemma insert_seed_posts (lv : Z) :
  Store.insert Post.constraints Post.with_id Post.id "posts_pkey" Seed.posts
    (Store.mkTable [] lv)
  = (inr tt,
     Store.mkTable [Post.with_id (lv + 1) Seed.thinking_post;
                    Post.with_id (lv + 1 + 1) Seed.doing_post] (lv + 1 + 1)).
Proof.
  unfold Store.insert, Seed.posts. cbn [Store.rows Store.last_value Store.insert_values].
  change (Post.constraints Seed.thinking_post) with (@inr Sql.dberror unit tt).
  change (Post.constraints Seed.doing_post) with (@inr Sql.dberror unit tt).
  cbn [existsb app Post.with_id Post.id orb].
  destruct (Z.eqb_spec (lv + 1) (lv + 1 + 1)) as [Heq|_]; [lia|].
  reflexivity.
Qed.

Lemma insert_seed_projects (lv : Z) :
  Store.insert Project.constraints Project.with_id Project.id "projects_pkey"
    Seed.projects (Store.mkTable [] lv)
  = (inr tt,
     Store.mkTable [Project.with_id (lv + 1) (nth 0 Seed.projects (Project.mkValues None None None None None None));
                    Project.with_id (lv + 1 + 1) (nth 1 Seed.projects (Project.mkValues None None None None None None))]
                   (lv + 1 + 1)).
Proof.
  unfold Store.insert, Seed.projects.
  cbn [Store.rows Store.last_value Store.insert_values Project.constraints
       Project.v_title existsb app Project.with_id Project.id orb nth].
  destruct (Z.eqb_spec (lv + 1) (lv + 1 + 1)) as [Heq|_]; [lia|].
  reflexivity.
Qed.

(** With the connection up, the [try] block of [initDb] runs to its end
    and leaves rows in both relations. *)
Lemma initDb_body_populates (c : Pool.client) :
  triple (fun w => faults w = [])
         (Server.initDb_body c)
         (fun o w => o = Ret tt
                     /\ populated (Store.posts (db w))
                     /\ populated (Store.projects (db w))).
Proof.
  assert (Hup : forall w, faults w = [] -> online w = false -> False).
  { intros w Hf Hoff. unfold online in Hoff. rewrite Hf in Hoff. discriminate Hoff. }
  assert (Htl : forall s w, faults w = [] -> faults (settled s w) = []).
  { intros s w Hf. cbn. rewrite Hf. reflexivity. }
  unfold Server.initDb_body.
  eapply triple_bind
    with (R := fun _ w => faults w = []
                /\ exists tbp tbj, db w = Store.mk (Some tbp) (Some tbj)).
  { apply triple_client_query.
    - intros w Hf Hoff. destruct (Hup w Hf Hoff).
    - intros w Hf _. cbn [Store.create_tables fst snd raised].
      split; [apply Htl, Hf|]. cbn [settled db].
      destruct (db w) as [[tbp|] [tbj|]]; cbn; eauto. }
  intros ?.
  eapply triple_bind
    with (R := fun a w => faults w = []
                /\ exists tbp tbj, db w = Store.mk (Some tbp) (Some tbj)
                                   /\ a = int8out (length (Store.rows tbp))).
  { apply triple_client_query.
    - intros w [Hf _] Hoff. destruct (Hup w Hf Hoff).
    - intros w [Hf [tbp [tbj Hdb]]] _. rewrite Hdb.
      cbn. split; [rewrite Hf; reflexivity|]. eauto. }
  intros postCountRes.
  eapply triple_bind
    with (R := fun _ w => faults w = []
                /\ exists tbp tbj, db w = Store.mk (Some tbp) (Some tbj)
                                   /\ Store.rows tbp <> []).
  { apply triple_when.
    - intros Hz. apply triple_client_query.
      + intros w [Hf _] Hoff. destruct (Hup w Hf Hoff).
      + intros w [Hf [tbp [tbj [Hdb ->]]]] _.
        rewrite count_is_zero in Hz. apply Nat.eqb_eq in Hz.
        destruct tbp as [rs lv]. cbn [Store.rows] in Hz.
        destruct rs; [|discriminate Hz].
        rewrite Hdb. unfold Store.insert_posts. cbn [Store.posts Store.projects].
        rewrite insert_seed_posts. cbn [fst snd raised settled db].
        split; [cbn; rewrite Hf; reflexivity|].
        eexists. eexists. split; [reflexivity|]. discriminate.
    - intros Hz w [Hf [tbp [tbj [Hdb ->]]]].
      rewrite count_is_zero in Hz. apply Nat.eqb_neq in Hz.
      split; [exact Hf|]. exists tbp, tbj. split; [exact Hdb|].
      intros Hnil. rewrite Hnil in Hz. apply Hz. reflexivity. }
  intros ?.
  eapply triple_bind
    with (R := fun a w => faults w = []
                /\ exists tbp tbj, db w = Store.mk (Some tbp) (Some tbj)
                                   /\ Store.rows tbp <> []
                                   /\ a = int8out (length (Store.rows tbj))).
  { apply triple_client_query.
    - intros w [Hf _] Hoff. destruct (Hup w Hf Hoff).
    - intros w [Hf [tbp [tbj [Hdb Hne]]]] _. rewrite Hdb.
      cbn. split; [rewrite Hf; reflexivity|]. eauto. }
  intros projectCountRes.
  apply triple_when.
  - intros Hz. apply triple_client_query.
    + intros w [Hf _] Hoff. destruct (Hup w Hf Hoff).
    + intros w [Hf [tbp [tbj [Hdb [Hne ->]]]]] _.
      rewrite count_is_zero in Hz. apply Nat.eqb_eq in Hz.
      destruct tbj as [rs lv]. cbn [Store.rows] in Hz.
      destruct rs; [|discriminate Hz].
      rewrite Hdb. unfold Store.insert_projects. cbn [Store.posts Store.projects].
      rewrite insert_seed_projects. cbn [fst snd raised settled db Store.posts Store.projects].
      split; [reflexivity|]. split.
      * exists tbp. split; [reflexivity | exact Hne].
      * eexists. split; [reflexivity|]. discriminate.
  - intros Hz w [Hf [tbp [tbj [Hdb [Hne ->]]]]].
    rewrite count_is_zero in Hz. apply Nat.eqb_neq in Hz.
    split; [reflexivity|]. rewrite Hdb. cbn [Store.posts Store.projects]. split.
    + exists tbp. split; [reflexivity | exact Hne].
    + exists tbj. split; [reflexivity|].
      intros Hnil. rewrite Hnil in Hz. apply Hz. reflexivity.
Qed.

(** With the connection up, a run of [initDb] ends normally with rows
    in both relations, and a second run changes nothing. The seed rows
    always go in here, where keys have no bound. *)
Lemma initDb_twice (w : world) :
  faults w = [] ->
  fst (Server.initDb w) = Ret tt
  /\ populated (Store.posts (db (snd (Server.initDb w))))
  /\ populated (Store.projects (db (snd (Server.initDb w))))
  /\ db (snd (Server.initDb (snd (Server.initDb w)))) = db (snd (Server.initDb w)).
Proof.
  intros Hf.
  assert (Hon : online w = true).
  { unfold online. rewrite Hf. reflexivity. }
  assert (Hpop : fst (Server.initDb w) = Ret tt
                 /\ populated (Store.posts (db (snd (Server.initDb w))))
                 /\ populated (Store.projects (db (snd (Server.initDb w))))).
  { rewrite initDb_online by assumption.
    assert (Hacq : faults (acquired w) = []).
    { cbn. rewrite Hf. reflexivity. }
    pose proof (initDb_body_populates Pool.Client (acquired w) Hacq) as [Ho [Hp Hj]].
    destruct (Server.initDb_body Pool.Client (acquired w)) as [[a|e|code] w2];
      cbn [fst snd] in Ho, Hp, Hj; try discriminate Ho.
    cbn. destruct a. auto. }
  destruct Hpop as [Hret [Hp Hj]].
  split; [exact Hret|]. split; [exact Hp|]. split; [exact Hj|].
  apply initDb_keeps_populated; assumption.
Qed.

(** ** Start-up *)

(** C5. On a store no one has touched and with the connection up,
    [initDb] ends normally and [GET /api/posts] then answers 200 with
    exactly two rows: first the post of key 2, type doing, titled
    "Why I'm Building This Notes Section", then the post of key 1, type
    thinking, titled "All I Need Is a Renaissance, Summer, and
    Success". *)
Theorem fresh_store_lists_two_posts (w : world) :
  db w = Store.fresh ->
  faults w = [] ->
  fst (Server.initDb w) = Ret tt
  /\ exists doing thinking : Post.t,
       fst (Server.get_posts None (snd (Server.initDb w)))
         = Ret (mkResponse 200 (JArr [post_json doing; post_json thinking]))
       /\ fst (Api.get_posts None (snd (Server.initDb w)))
         = Ret (mkResponse 200 (JArr [post_json doing; post_json thinking]))
       /\ Post.id doing = 2
       /\ Post.type doing = Some "doing"
       /\ Post.title doing = Some "Why I'm Building This Notes Section"
       /\ Post.id thinking = 1
       /\ Post.type thinking = Some "thinking"
       /\ Post.title thinking
          = Some "All I Need Is a Renaissance, Summer, and Success".
Proof.
  destruct w as [d f n e o l]. cbn [db faults]. intros -> ->.
  split; [vm_compute; reflexivity|].
  exists (Post.with_id 2 Seed.doing_post), (Post.with_id 1 Seed.thinking_post).
  repeat split; vm_compute; reflexivity.
Qed.

Lemma fresh_store_lists_two_posts_witness :
  fst (Server.initDb Example.blank) = Ret tt
  /\ exists doing thinking : Post.t,
       fst (Server.get_posts None Example.seeded)
         = Ret (mkResponse 200 (JArr [post_json doing; post_json thinking]))
       /\ fst (Api.get_posts None Example.seeded)
         = Ret (mkResponse 200 (JArr [post_json doing; post_json thinking]))
       /\ Post.id doing = 2
       /\ Post.type doing = Some "doing"
       /\ Post.title doing = Some "Why I'm Building This Notes Section"
       /\ Post.id thinking = 1
       /\ Post.type thinking = Some "thinking"
       /\ Post.title thinking
          = Some "All I Need Is a Renaissance, Summer, and Success".
Proof.
  apply (fresh_store_lists_two_posts Example.blank); reflexivity.
Defined.

Section Configuration.
Context `{Server.Host}.

(** C6. With [DATABASE_URL] absent the process ends with status 1, which
    is not 0, before [listen] is called and before the store is touched,
    whether the driver refuses the missing string at load time or
    [startServer] finds it missing; and loading [api/index.ts] throws, so
    that a process running it ends with status 1 as well. *)
Theorem missing_database_url_is_fatal
        (neon : option string -> option error) (s : Store.t) (f : list bool) :
  fst (Node.run (Server.main neon None) (Node.boot s f)) = Some 1
  /\ 1 <> 0
  /\ listening (snd (Node.run (Server.main neon None) (Node.boot s f))) = None
  /\ db (snd (Node.run (Server.main neon None) (Node.boot s f))) = s
  /\ faults (snd (Node.run (Server.main neon None) (Node.boot s f))) = f
  /\ fst (Api.load None (Node.boot s f)) = Throw (Error "DATABASE_URL is not set")
  /\ fst (Node.run (Api.load None) (Node.boot s f)) = Some 1.
Proof.
  unfold Server.main. destruct (neon None) as [e|].
  - repeat split; try reflexivity. lia.
  - repeat split; try reflexivity. lia.
Qed.

End Configuration.

(** ** The empty filter *)

(** C9. [GET /api/posts?type=] with the empty string takes the branch
    of a missing [type], in both files: the handler does what it does
    without the parameter, and when the query reaches a store that has
    the relation the answer is 200 with every stored post, of whatever
    type, in descending order of [id]. *)
Theorem empty_type_is_no_filter (w : world) :
  Server.get_posts (Some "") w = Server.get_posts None w
  /\ Api.get_posts (Some "") w = Api.get_posts None w
  /\ forall tb, Store.posts (db w) = Some tb -> online w = true ->
       exists rows : list Post.t,
         fst (Server.get_posts (Some "") w)
           = Ret (mkResponse 200 (JArr (map post_json rows)))
         /\ fst (Api.get_posts (Some "") w)
           = Ret (mkResponse 200 (JArr (map post_json rows)))
         /\ Permutation rows (Store.rows tb)
         /\ descending Post.id rows.
Proof.
  split; [reflexivity|]. split; [reflexivity|].
  intros tb Htb Hon.
  pose proof (posts_query_all (Some "") w tb eq_refl Htb Hon) as Hq.
  exists (Sql.order_by_desc Post.id (Store.rows tb)).
  rewrite (server_get_posts_ok (Some "") w _ _ Hq).
  rewrite (api_get_posts_ok (Some "") w _ _ Hq).
  repeat split.
  - apply order_by_desc_perm.
  - apply order_by_desc_sorted.
Qed.

Lemma empty_type_is_no_filter_witness :
  (exists rows : list Post.t,
     fst (Server.get_posts (Some "") Example.mixed)
       = Ret (mkResponse 200 (JArr (map post_json rows)))
     /\ fst (Api.get_posts (Some "") Example.mixed)
       = Ret (mkResponse 200 (JArr (map post_json rows)))
     /\ Permutation rows (Store.rows Example.mixed_posts)
     /\ descending Post.id rows)
  /\ fst (Store.select_posts_by_type (Some "") (db Example.mixed)) = inr [].
Proof.
  split.
  - destruct (empty_type_is_no_filter Example.mixed) as [_ [_ Hall]].
    apply (Hall Example.mixed_posts); reflexivity.
  - reflexivity.
Defined.

(** ** The constraint on [type] *)

Lemma type_check_spec (ty : Sql.text) :
  Post.type_check ty = true <-> admitted_type ty.
Proof.
  unfold Post.type_check, admitted_type.
  destruct ty as [s|]; cbn.
  - destruct (String.eqb_spec s "thinking") as [->|Hth]; cbn.
    + split; auto.
    + destruct (String.eqb_spec s "doing") as [->|Hdo]; cbn.
      * split; auto.
      * split; [discriminate|].
        intros [Hn|[Ht|Hd]]; [discriminate Hn | |].
        -- injection Ht as Ht. contradiction.
        -- injection Hd as Hd. contradiction.
  - split; auto.
Qed.

Lemma constraints_admit (v : Post.values) :
  Post.constraints v = inr tt -> admitted_type (Post.v_type v).
Proof.
  unfold Post.constraints.
  destruct (Post.v_title v); [|discriminate].
  destruct (Post.v_date v); [|discriminate].
  destruct (Post.type_check (Post.v_type v)) eqn:Hc; [|discriminate].
  intros _. apply type_check_spec, Hc.
Qed.

(** What a [VALUES] list that went through tells about its tuples and
    about the rows it leaves. *)
Lemma insert_values_posts (vs : list Post.values) :
  forall (rs rs' : list Post.t) (seq n : Z),
    Store.insert_values Post.constraints Post.with_id Post.id "posts_pkey" vs rs seq
    = (inr rs', n) ->
    (forall v, In v vs -> admitted_type (Post.v_type v))
    /\ (Forall (fun r => admitted_type (Post.type r)) rs ->
        Forall (fun r => admitted_type (Post.type r)) rs')
    /\ (keyed rs -> keyed rs').
Proof.
  induction vs as [|v vs IH]; intros rs rs' seq n Hins; cbn in Hins.
  - injection Hins as <- _. split; [intros v []|]. split; auto.
  - destruct (Post.constraints v) as [e|[]] eqn:Hc; [discriminate|].
    destruct (existsb (fun r => Post.id r =? seq + 1) rs) eqn:Hkey; [discriminate|].
    destruct (IH _ _ _ _ Hins) as [Hvs [Hty Hk]].
    pose proof (constraints_admit v Hc) as Hv.
    split; [|split].
    + intros v' [<-|Hin]; [exact Hv | apply Hvs, Hin].
    + intros Hrs. apply Hty. apply Forall_app. split; [exact Hrs|].
      constructor; [exact Hv | constructor].
    + intros Hrs. apply Hk. unfold keyed in *.
      rewrite map_app. cbn [map Post.with_id Post.id].
      apply NoDup_app.
      * exact Hrs.
      * constructor; [intros [] | constructor].
      * intros k Hin1 [<-|[]].
        apply in_map_iff in Hin1. destruct Hin1 as [r [Hr Hin1]].
        assert (Hex : existsb (fun r => Post.id r =? seq + 1) rs = true).
        { apply existsb_exists. exists r. split; [exact Hin1|].
          apply Z.eqb_eq, Hr. }
        rewrite Hex in Hkey. discriminate Hkey.
Qed.

(** An insert into [posts], failed or not, keeps the rows typed and
    keyed. *)
Lemma insert_posts_invariant (vs : list Post.values) (s : Store.t) :
  (typed s -> typed (snd (Store.insert_posts vs s)))
  /\ (forall tb tb', Store.posts s = Some tb ->
        Store.posts (snd (Store.insert_posts vs s)) = Some tb' ->
        keyed (Store.rows tb) -> keyed (Store.rows tb')).
Proof.
  unfold typed, Store.insert_posts, Store.insert.
  destruct (Store.posts s) as [tb0|] eqn:Hp.
  - destruct (Store.insert_values Post.constraints Post.with_id Post.id
                "posts_pkey" vs (Store.rows tb0) (Store.last_value tb0))
      as [[e|rs'] n] eqn:Hins; cbn [snd Store.posts].
    + split.
      * intros Hs tb Htb. injection Htb as <-. exact (Hs tb0 eq_refl).
      * intros tb tb' Htb Htb' Hk. injection Htb as <-. injection Htb' as <-.
        exact Hk.
    + destruct (insert_values_posts _ _ _ _ _ Hins) as [_ [Hty Hk]]. split.
      * intros Hs tb Htb. injection Htb as <-. exact (Hty (Hs tb0 eq_refl)).
      * intros tb tb' Htb Htb' Hkey. injection Htb as <-. injection Htb' as <-.
        exact (Hk Hkey).
  - cbn [snd]. split.
    + intros Hs tb Htb. rewrite Hp in Htb. discriminate Htb.
    + intros tb tb' Htb. discriminate Htb.
Qed.

Lemma perform_typed (s : Store.t) (c : Store.write) :
  typed s -> typed (Store.perform s c).
Proof.
  intros Hs. destruct c as [|vs|vs]; cbn [Store.perform].
  - unfold typed, Store.create_tables. cbn [snd Store.posts].
    intros tb Htb. destruct (Store.posts s) as [tb0|] eqn:Hp; cbn in Htb.
    + injection Htb as <-. apply Hs, Hp.
    + injection Htb as <-. constructor.
  - apply insert_posts_invariant, Hs.
  - unfold typed, Store.insert_projects.
    destruct (Store.projects s) as [tbj|]; [|exact Hs].
    destruct (Store.insert _ _ _ _ vs tbj) as [r tb']. exact Hs.
Qed.

Lemma history_typed (cs : list Store.write) : typed (Store.history cs).
Proof.
  unfold Store.history.
  assert (Hgen : forall s, typed s -> typed (fold_left Store.perform cs s)).
  { induction cs as [|c cs IH]; intros s Hs; cbn [fold_left].
    - exact Hs.
    - apply IH, perform_typed, Hs. }
  apply Hgen. intros tb Htb. discriminate Htb.
Qed.

Lemma perform_keyed (s : Store.t) (c : Store.write) :
  (forall tb, Store.posts s = Some tb -> keyed (Store.rows tb)) ->
  forall tb, Store.posts (Store.perform s c) = Some tb -> keyed (Store.rows tb).
Proof.
  intros Hs tb' Htb'. destruct c as [|vs|vs]; cbn [Store.perform] in Htb'.
  - unfold Store.create_tables in Htb'. cbn [snd Store.posts] in Htb'.
    destruct (Store.posts s) as [tb0|] eqn:Hp; cbn in Htb'.
    + injection Htb' as <-. apply Hs. reflexivity.
    + injection Htb' as <-. constructor.
  - destruct (Store.posts s) as [tb0|] eqn:Hp.
    + destruct (insert_posts_invariant vs s) as [_ Hk].
      apply (Hk tb0 tb' Hp Htb'). apply Hs. reflexivity.
    + unfold Store.insert_posts in Htb'. rewrite Hp in Htb'.
      cbn [snd] in Htb'. rewrite Hp in Htb'. discriminate Htb'.
  - apply Hs. unfold Store.insert_projects in Htb'.
    destruct (Store.projects s) as [tbj|]; [|exact Htb'].
    destruct (Store.insert _ _ _ _ vs tbj) as [r tb'']. exact Htb'.
Qed.

(** The primary key holds in every store that writes have built. *)
Lemma history_keyed (cs : list Store.write) (tb : Store.table Post.t) :
  Store.posts (Store.history cs) = Some tb -> keyed (Store.rows tb).
Proof.
  unfold Store.history.
  assert (Hgen : forall s,
             (forall tb, Store.posts s = Some tb -> keyed (Store.rows tb)) ->
             forall tb, Store.posts (fold_left Store.perform cs s) = Some tb ->
                        keyed (Store.rows tb)).
  { induction cs as [|c cs IH]; intros s Hs; cbn [fold_left].
    - exact Hs.
    - apply IH. apply perform_keyed, Hs. }
  apply Hgen. intros tb0 Htb0. discriminate Htb0.
Qed.

(** C7, as the code has it. An insert into [posts] goes through only if
    the type of each of its rows is [NULL], thinking or doing, and in
    every store that writes have built from a fresh one each post has
    such a type: a type that is not [NULL] is one of the two. *)
Theorem posts_type_is_checked :
  (forall (vs : list Post.values) (s : Store.t),
     fst (Store.insert_posts vs s) = inr tt ->
     forall v, In v vs -> admitted_type (Post.v_type v))
  /\ (forall (cs : list Store.write) (tb : Store.table Post.t) (r : Post.t) (ty : string),
        Store.posts (Store.history cs) = Some tb ->
        In r (Store.rows tb) ->
        Post.type r = Some ty ->
        ty = "thinking" \/ ty = "doing").
Proof.
  split.
  - intros vs s Hok v Hv.
    unfold Store.insert_posts, Store.insert in Hok.
    destruct (Store.posts s) as [tb|]; [|discriminate Hok].
    destruct (Store.insert_values Post.constraints Post.with_id Post.id
                "posts_pkey" vs (Store.rows tb) (Store.last_value tb))
      as [[e|rs'] n] eqn:Hins; [discriminate Hok|].
    destruct (insert_values_posts _ _ _ _ _ Hins) as [Hvs _].
    apply Hvs, Hv.
  - intros cs tb r ty Htb Hr Hty.
    pose proof (history_typed cs tb Htb) as Hall.
    rewrite Forall_forall in Hall. specialize (Hall r Hr).
    destruct Hall as [Hn|[Ht|Hd]]; rewrite Hty in *.
    + discriminate Hn.
    + injection Ht as Ht. left. exact Ht.
    + injection Hd as Hd. right. exact Hd.
Qed.

Lemma posts_type_is_checked_witness :
  (forall v, In v Seed.posts -> admitted_type (Post.v_type v))
  /\ (forall (tb : Store.table Post.t) (r : Post.t) (ty : string),
        Store.posts (db Example.seeded) = Some tb ->
        In r (Store.rows tb) ->
        Post.type r = Some ty ->
        ty = "thinking" \/ ty = "doing").
Proof.
  destruct posts_type_is_checked as [Hins Hinv].
  split.
  - apply (Hins Seed.posts Example.created). reflexivity.
  - apply (Hinv [Store.CreateTables; Store.InsertPosts Seed.posts;
                 Store.InsertProjects Seed.projects]).
Defined.

(** C7 as stated does not hold: a post with no type is accepted and
    stored, and [NULL] is neither of the two values. *)
Lemma untyped_post_is_accepted :
  fst (Store.insert_posts [Example.untyped_post] Example.created) = inr tt
  /\ Post.v_type Example.untyped_post <> Some "thinking"
  /\ Post.v_type Example.untyped_post <> Some "doing"
  /\ exists tb r,
       Store.posts (snd (Store.insert_posts [Example.untyped_post] Example.created))
         = Some tb
       /\ In r (Store.rows tb)
       /\ Post.type r <> Some "thinking"
       /\ Post.type r <> Some "doing".
Proof.
  split; [reflexivity|].
  split; [discriminate|]. split; [discriminate|].
  exists (Store.mkTable [Post.with_id 1 Example.untyped_post] 1),
         (Post.with_id 1 Example.untyped_post).
  split; [reflexivity|]. split; [left; reflexivity|].
  split; discriminate.
Qed.

(** * Further properties of the code *)

(** ** Listing projects *)

(** The query of [GET /api/projects], when it reaches a store that has
    the relation. *)
Lemma projects_query_all (w : world) (tb : Store.table Project.t) :
  Store.projects (db w) = Some tb ->
  online w = true ->
  Server.projects_query w =
    (Ret (Sql.order_by_desc Project.id (Store.rows tb)), settled (db w) w).
Proof.
  intros Htb Hon. unfold Server.projects_query.
  rewrite query_online by assumption.
  unfold Store.select_projects, Store.from_projects, Store.reading.
  cbn [fst snd]. rewrite Htb. reflexivity.
Qed.

(** X1. [GET /api/projects], in both files, answers 200 with every
    stored project, each once, in descending order of [id], whenever the
    query reaches a store that has the relation; an empty relation gives
    the empty array. *)
Theorem list_projects_all (w : world) (tb : Store.table Project.t) :
  Store.projects (db w) = Some tb ->
  online w = true ->
  exists rows : list Project.t,
    fst (Server.get_projects w) = Ret (mkResponse 200 (JArr (map project_json rows)))
    /\ fst (Api.get_projects w) = Ret (mkResponse 200 (JArr (map project_json rows)))
    /\ Permutation rows (Store.rows tb)
    /\ descending Project.id rows
    /\ (Store.rows tb = [] -> rows = []).
Proof.
  intros Htb Hon.
  pose proof (projects_query_all w tb Htb Hon) as Hq.
  exists (Sql.order_by_desc Project.id (Store.rows tb)).
  rewrite (server_get_projects_ok _ _ _ Hq), (api_get_projects_ok _ _ _ Hq).
  split; [reflexivity|]. split; [reflexivity|].
  split; [apply order_by_desc_perm|].
  split; [apply order_by_desc_sorted|].
  intros ->. reflexivity.
Qed.

Lemma list_projects_all_witness :
  exists rows : list Project.t,
    fst (Server.get_projects Example.seeded)
      = Ret (mkResponse 200 (JArr (map project_json rows)))
    /\ fst (Api.get_projects Example.seeded)
      = Ret (mkResponse 200 (JArr (map project_json rows)))
    /\ Permutation rows (Store.rows Example.seeded_projects)
    /\ descending Project.id rows
    /\ (Store.rows Example.seeded_projects = [] -> rows = []).
Proof.
  apply (list_projects_all Example.seeded Example.seeded_projects); reflexivity.
Defined.

(** ** The order of a listing *)

Lemma posts_query_selected (type : option string) (w : world)
      (tb : Store.table Post.t) :
  Store.posts (db w) = Some tb ->
  online w = true ->
  Server.posts_query type w =
    (Ret (Sql.order_by_desc Post.id (selected type (Store.rows tb))),
     settled (db w) w).
Proof.
  intros Htb Hon. unfold Server.posts_query, selected.
  destruct (truthy type); rewrite query_online by assumption;
    unfold Store.select_posts_by_type, Store.select_posts, Store.from_posts,
      Store.reading; cbn [fst snd]; rewrite Htb; reflexivity.
Qed.

Section StrictOrder.
Context {A : Type} (key : A -> Z).

Lemma descending_strict (l : list A) :
  descending key l -> NoDup (map key l) -> strictly_descending key l.
Proof.
  unfold descending, strictly_descending.
  induction l as [|x xs IH]; intros Hs Hk; [constructor|].
  apply StronglySorted_inv in Hs. destruct Hs as [Hxs Hx].
  cbn in Hk. apply NoDup_cons_iff in Hk. destruct Hk as [Hnot Hk].
  constructor; [apply IH; assumption|].
  rewrite Forall_forall in Hx |- *. intros y Hy.
  specialize (Hx y Hy). cbn in Hx.
  assert (key y <> key x).
  { intros Heq. apply Hnot. rewrite <- Heq. apply in_map, Hy. }
  lia.
Qed.

Lemma strictly_descending_unique (l1 l2 : list A) :
  strictly_descending key l1 -> strictly_descending key l2 ->
  Permutation l1 l2 -> l1 = l2.
Proof.
  unfold strictly_descending. revert l2.
  induction l1 as [|x xs IH]; intros l2 H1 H2 Hp.
  - apply Permutation_nil in Hp. symmetry. exact Hp.
  - destruct l2 as [|y ys].
    + apply Permutation_sym, Permutation_nil in Hp. discriminate Hp.
    + apply StronglySorted_inv in H1. destruct H1 as [Hxs Hx].
      apply StronglySorted_inv in H2. destruct H2 as [Hys Hy].
      rewrite Forall_forall in Hx, Hy.
      assert (Hxy : x = y).
      { assert (Hin1 : In x (y :: ys)) by (apply (Permutation_in _ Hp); left; reflexivity).
        assert (Hin2 : In y (x :: xs))
          by (apply (Permutation_in _ (Permutation_sym Hp)); left; reflexivity).
        destruct Hin1 as [Heq|Hin1]; [symmetry; exact Heq|].
        destruct Hin2 as [Heq|Hin2]; [exact Heq|].
        specialize (Hx y Hin2). specialize (Hy x Hin1). cbn in Hx, Hy. lia. }
      subst y. f_equal. apply IH; try assumption.
      apply Permutation_cons_inv with x. exact Hp.
Qed.

Lemma nodup_keys_filter (f : A -> bool) (l : list A) :
  NoDup (map key l) -> NoDup (map key (filter f l)).
Proof.
  induction l as [|x xs IH]; intros Hk; [constructor|].
  cbn in Hk. apply NoDup_cons_iff in Hk. destruct Hk as [Hnot Hk].
  cbn [filter]. destruct (f x); [|apply IH, Hk].
  cbn [map]. constructor; [|apply IH, Hk].
  intros Hin. apply Hnot. apply in_map_iff in Hin.
  destruct Hin as [y [Hy Hin]]. apply filter_In in Hin.
  apply in_map_iff. exists y. split; [exact Hy | apply Hin].
Qed.

Lemma filter_permutation (f : A -> bool) (l1 l2 : list A) :
  Permutation l1 l2 -> Permutation (filter f l1) (filter f l2).
Proof.
  induction 1 as [|x l1 l2 Hp IH|x y l|l1 l2 l3 Hp1 IH1 Hp2 IH2]; cbn [filter].
  - constructor.
  - destruct (f x); [apply perm_skip|]; exact IH.
  - destruct (f x), (f y); try apply Permutation_refl. apply perm_swap.
  - eapply perm_trans; eassumption.
Qed.

Lemma order_by_desc_strict (l : list A) :
  NoDup (map key l) -> strictly_descending key (Sql.order_by_desc key l).
Proof.
  intros Hk. apply descending_strict; [apply order_by_desc_sorted|].
  apply (Permutation_NoDup (l := map key l)); [|exact Hk].
  apply Permutation_map, Permutation_sym, order_by_desc_perm.
Qed.
End StrictOrder.

Lemma selected_keyed (type : option string) (rs : list Post.t) :
  keyed rs -> keyed (selected type rs).
Proof.
  unfold selected, keyed. intros Hk.
  destruct (truthy type); [apply nodup_keys_filter, Hk | exact Hk].
Qed.

Lemma selected_permutation (type : option string) (rs rs' : list Post.t) :
  Permutation rs rs' -> Permutation (selected type rs) (selected type rs').
Proof.
  unfold selected. intros Hp.
  destruct (truthy type); [apply filter_permutation, Hp | exact Hp].
Qed.

(** X2. With the primary key in force, the rows [GET /api/posts]
    answers, filtered or not, are in strictly descending order of [id],
    and the answer is the same for two stores that hold the same rows in
    a different physical order: [ORDER BY id DESC] leaves nothing to
    chance. *)
Theorem list_posts_order_is_determined
        (type : option string) (w w' : world) (tb tb' : Store.table Post.t) :
  Store.posts (db w) = Some tb ->
  Store.posts (db w') = Some tb' ->
  keyed (Store.rows tb) ->
  Permutation (Store.rows tb) (Store.rows tb') ->
  online w = true ->
  online w' = true ->
  fst (Server.get_posts type w) = fst (Server.get_posts type w')
  /\ fst (Api.get_posts type w) = fst (Api.get_posts type w')
  /\ exists rows : list Post.t,
       fst (Server.get_posts type w)
         = Ret (mkResponse 200 (JArr (map post_json rows)))
       /\ strictly_descending Post.id rows.
Proof.
  intros Htb Htb' Hk Hp Hon Hon'.
  pose proof (posts_query_selected type w tb Htb Hon) as Hq.
  pose proof (posts_query_selected type w' tb' Htb' Hon') as Hq'.
  assert (Hk' : keyed (Store.rows tb')).
  { unfold keyed. apply (Permutation_NoDup (l := map Post.id (Store.rows tb))).
    - apply Permutation_map, Hp.
    - exact Hk. }
  assert (Heq : Sql.order_by_desc Post.id (selected type (Store.rows tb))
                = Sql.order_by_desc Post.id (selected type (Store.rows tb'))).
  { apply (strictly_descending_unique Post.id).
    - apply order_by_desc_strict, selected_keyed, Hk.
    - apply order_by_desc_strict, selected_keyed, Hk'.
    - eapply perm_trans; [apply order_by_desc_perm|].
      eapply perm_trans; [apply selected_permutation, Hp|].
      apply Permutation_sym, order_by_desc_perm. }
  rewrite (server_get_posts_ok type w _ _ Hq), (server_get_posts_ok type w' _ _ Hq').
  rewrite (api_get_posts_ok type w _ _ Hq), (api_get_posts_ok type w' _ _ Hq').
  cbn [fst]. rewrite Heq. split; [reflexivity|]. split; [reflexivity|].
  eexists. split; [reflexivity|].
  apply order_by_desc_strict, selected_keyed, Hk'.
Qed.

Lemma list_posts_order_is_determined_witness :
  fst (Server.get_posts None Example.mixed)
    = fst (Server.get_posts None Example.mixed_reordered)
  /\ fst (Api.get_posts None Example.mixed)
     = fst (Api.get_posts None Example.mixed_reordered)
  /\ exists rows : list Post.t,
       fst (Server.get_posts None Example.mixed)
         = Ret (mkResponse 200 (JArr (map post_json rows)))
       /\ strictly_descending Post.id rows.
Proof.
  apply (list_posts_order_is_determined None Example.mixed Example.mixed_reordered
           Example.mixed_posts
           (Store.mkTable (rev (Store.rows Example.mixed_posts)) 5)).
  - reflexivity.
  - reflexivity.
  - unfold keyed. vm_compute. repeat constructor; simpl; intuition discriminate.
  - apply Permutation_rev.
  - reflexivity.
  - reflexivity.
Defined.

(** ** What a request leaves behind *)

Lemma settled_same (w : world) : with_faults (tl (faults w)) w = settled (db w) w.
Proof. reflexivity. Qed.

Lemma reading_query_world {A : Type} (f : Store.t -> Sql.result A) (w : world) :
  snd (Pool.query (Store.reading f) w) = settled (db w) w.
Proof.
  destruct (online w) eqn:Hon.
  - rewrite query_online by assumption. reflexivity.
  - rewrite query_offline by assumption. reflexivity.
Qed.

Lemma posts_query_world (type : option string) (w : world) :
  snd (Server.posts_query type w) = settled (db w) w.
Proof.
  unfold Server.posts_query. destruct (truthy type); apply reading_query_world.
Qed.

Section RequestFacts.
Context `{TextInput}.

Lemma post_query_world (id : string) (w : world) :
  snd (Server.post_query id w) = settled (db w) w.
Proof. apply reading_query_world. Qed.

(** The answer and the world a request leaves, for the file without a
    console line and for the one with. *)
Lemma handle_cases (req : request) (w : world) :
  (~ query_fails req w
   /\ exists resp,
        Server.handle req w = (Ret resp, settled (db w) w)
        /\ Api.handle req w = (Ret resp, settled (db w) w)
        /\ status resp <> 500)
  \/ (exists e,
        query_fails req w
        /\ Server.handle req w
           = (Ret (mkResponse 500 database_error), settled (db w) w)
        /\ Api.handle req w
           = (Ret (mkResponse 500 database_error),
              with_stderr (stderr w ++ [[Object e]]) (settled (db w) w))).
Proof.
  destruct req as [type|id|]; cbn [Server.handle Api.handle query_fails].
  - pose proof (posts_query_world type w) as Hw.
    destruct (posts_query_ret_or_throw type w) as [[rows [w' Hq]]|[e [w' Hq]]];
      rewrite Hq in Hw; cbn [snd] in Hw; subst w'.
    + left. split.
      * intros [e He]. rewrite Hq in He. discriminate He.
      * rewrite (server_get_posts_ok _ _ _ _ Hq), (api_get_posts_ok type w _ _ Hq).
        eexists. split; [reflexivity|]. split; [reflexivity|]. discriminate.
    + right. exists e. split.
      * exists e. rewrite Hq. reflexivity.
      * rewrite (server_get_posts_err _ _ _ _ Hq), (api_get_posts_err type w _ _ Hq).
        split; reflexivity.
  - pose proof (post_query_world id w) as Hw. unfold Server.post_query in Hw.
    destruct (query_ret_or_throw (Store.select_post_by_id id) w)
      as [[rows [w' Hq]]|[e [w' Hq]]];
      rewrite Hq in Hw; cbn [snd] in Hw; subst w'.
    + left. split.
      * intros [e He]. unfold Server.post_query in He. rewrite Hq in He.
        discriminate He.
      * rewrite (server_get_post_ok id w _ _ Hq), (api_get_post_ok id w _ _ Hq).
        eexists. split; [reflexivity|]. split; [reflexivity|].
        destruct rows; discriminate.
    + right. exists e. split.
      * exists e. unfold Server.post_query. rewrite Hq. reflexivity.
      * rewrite (server_get_post_err id w _ _ Hq), (api_get_post_err id w _ _ Hq).
        split; reflexivity.
  - pose proof (reading_query_world
                  (fun s => match Store.projects s with
                            | None => inl (Sql.UndefinedTable "projects")
                            | Some tb => inr (Sql.order_by_desc Project.id (Store.rows tb))
                            end) w) as Hw.
    destruct (query_ret_or_throw Store.select_projects w)
      as [[rows [w' Hq]]|[e [w' Hq]]].
    + change (Pool.query (Store.reading _) w) with (Pool.query Store.select_projects w) in Hw.
      rewrite Hq in Hw; cbn [snd] in Hw; subst w'.
      left. split.
      * intros [e He]. unfold Server.projects_query in He. rewrite Hq in He.
        discriminate He.
      * rewrite (server_get_projects_ok w _ _ Hq), (api_get_projects_ok w _ _ Hq).
        eexists. split; [reflexivity|]. split; [reflexivity|]. discriminate.
    + change (Pool.query (Store.reading _) w) with (Pool.query Store.select_projects w) in Hw.
      rewrite Hq in Hw; cbn [snd] in Hw; subst w'.
      right. exists e. split.
      * exists e. unfold Server.projects_query. rewrite Hq. reflexivity.
      * rewrite (server_get_projects_err w _ _ Hq), (api_get_projects_err w _ _ Hq).
        split; reflexivity.
Qed.


(** What [api/index.ts] does with the error of its query: it is the one
    argument of the one call to [console.error]. *)
Lemma api_handle_logged (req : request) (w : world) :
  match query_error req w with
  | Some e =>
      Api.handle req w
      = (Ret (mkResponse 500 database_error),
         with_stderr (stderr w ++ [[Object e]]) (settled (db w) w))
  | None => stderr (snd (Api.handle req w)) = stderr w
  end.
Proof.
  destruct req as [type|id|]; cbn [Api.handle query_error]; unfold thrown.
  - pose proof (posts_query_world type w) as Hw.
    destruct (posts_query_ret_or_throw type w) as [[rows [w' Hq]]|[e [w' Hq]]];
      rewrite Hq in Hw; cbn [snd] in Hw; subst w';
      change (Server.posts_query type w) with (Api.posts_query type w) in Hq;
      rewrite Hq; cbn [fst].
    + rewrite (api_get_posts_ok type w _ _ Hq). reflexivity.
    + rewrite (api_get_posts_err type w _ _ Hq). reflexivity.
  - pose proof (post_query_world id w) as Hw. unfold Server.post_query in Hw.
    unfold Api.post_query.
    destruct (query_ret_or_throw (Store.select_post_by_id id) w)
      as [[rows [w' Hq]]|[e [w' Hq]]];
      rewrite Hq in Hw; cbn [snd] in Hw; subst w'; rewrite Hq; cbn [fst].
    + rewrite (api_get_post_ok id w _ _ Hq). reflexivity.
    + rewrite (api_get_post_err id w _ _ Hq). reflexivity.
  - pose proof (reading_query_world
                  (fun s => match Store.projects s with
                            | None => inl (Sql.UndefinedTable "projects")
                            | Some tb => inr (Sql.order_by_desc Project.id (Store.rows tb))
                            end) w) as Hw.
    change (Pool.query (Store.reading _) w) with (Pool.query Store.select_projects w) in Hw.
    unfold Api.projects_query.
    destruct (query_ret_or_throw Store.select_projects w)
      as [[rows [w' Hq]]|[e [w' Hq]]];
      rewrite Hq in Hw; cbn [snd] in Hw; subst w'; rewrite Hq; cbn [fst].
    + rewrite (api_get_projects_ok w _ _ Hq). reflexivity.
    + rewrite (api_get_projects_err w _ _ Hq). reflexivity.
Qed.

(** X4. [api/index.ts] answers every request as [server.ts] does. When
    its store query throws, the [catch] block calls [console.error]
    once, with the error it caught as the only argument, and answers
    500 with the constant body, which holds nothing of that error; when
    the query does not throw nothing is written. *)
Theorem api_logs_what_it_hides (req : request) (w : world) :
  fst (Api.handle req w) = fst (Server.handle req w)
  /\ stderr (snd (Api.handle req w))
     = (stderr w ++ match query_error req w with
                    | Some e => [[Object e]]
                    | None => []
                    end)%list
  /\ (forall e, query_error req w = Some e ->
        fst (Api.handle req w) = Ret (mkResponse 500 database_error)).
Proof.
  split.
  { destruct (handle_cases req w) as [[_ [resp [Hs [Ha _]]]]|[e [_ [Hs Ha]]]];
      rewrite Hs, Ha; reflexivity. }
  pose proof (api_handle_logged req w) as Hlog.
  destruct (query_error req w) as [e|].
  - rewrite Hlog. split; [reflexivity|]. intros e' _. reflexivity.
  - rewrite Hlog. split; [symmetry; apply app_nil_r|]. intros e' He. discriminate He.
Qed.
End RequestFacts.

Lemma api_logs_what_it_hides_witness :
  stderr (snd (@Api.handle decimal_input (GetPost "abc") Example.seeded))
  = (stderr Example.seeded
       ++ [[Object (DbError (Sql.InvalidTextRepresentation "abc"))]])%list
  /\ fst (@Api.handle decimal_input (GetPost "abc") Example.seeded)
     = Ret (mkResponse 500 database_error).
Proof.
  destruct (@api_logs_what_it_hides decimal_input (GetPost "abc") Example.seeded)
    as [_ [Hlog Hanswer]].
  split.
  - exact Hlog.
  - apply (Hanswer (DbError (Sql.InvalidTextRepresentation "abc"))). reflexivity.
Defined.

(** ** Filters that match nothing, relations that are not there *)

Lemma filter_foreign_type (ty : string) (rs : list Post.t) :
  ty <> "thinking" -> ty <> "doing" ->
  Forall (fun r => admitted_type (Post.type r)) rs ->
  filter (has_type ty) rs = [].
Proof.
  intros Hth Hdo Hall.
  induction Hall as [|r rs Hr _ IH]; [reflexivity|].
  cbn [filter]. destruct (has_type ty r) eqn:Hhas; [|exact IH].
  exfalso. apply has_type_spec in Hhas.
  destruct Hr as [Hn|[Ht|Hd]]; rewrite Hhas in *.
  - discriminate Hn.
  - injection Ht as Ht. contradiction.
  - injection Hd as Hd. contradiction.
Qed.

(** X5. A [type] parameter the store takes as a text, that is not
    empty and is neither thinking nor doing, whatever its case or
    length, matches no post of a store whose rows passed the [CHECK]
    constraint: the answer is 200 with the empty array, not an error. *)
Theorem unknown_type_lists_nothing (ty : string) (w : world)
        (tb : Store.table Post.t) :
  text_parameter ty ->
  ty <> "" -> ty <> "thinking" -> ty <> "doing" ->
  Store.posts (db w) = Some tb ->
  typed (db w) ->
  online w = true ->
  fst (Server.get_posts (Some ty) w) = Ret (mkResponse 200 (JArr []))
  /\ fst (Api.get_posts (Some ty) w) = Ret (mkResponse 200 (JArr [])).
Proof.
  intros _ Hne Hth Hdo Htb Hty Hon.
  pose proof (posts_query_filtered ty w tb Hne Htb Hon) as Hq.
  assert (Hnone : filter (has_type ty) (Store.rows tb) = []).
  { apply filter_foreign_type; try assumption. apply Hty, Htb. }
  rewrite Hnone in Hq.
  rewrite (server_get_posts_ok _ _ _ _ Hq), (api_get_posts_ok (Some ty) w _ _ Hq).
  split; reflexivity.
Qed.

Lemma unknown_type_lists_nothing_witness :
  fst (Server.get_posts (Some "Thinking") Example.seeded)
    = Ret (mkResponse 200 (JArr []))
  /\ fst (Api.get_posts (Some "Thinking") Example.seeded)
     = Ret (mkResponse 200 (JArr [])).
Proof.
  apply (unknown_type_lists_nothing "Thinking" Example.seeded Example.seeded_posts).
  - intros Hin. cbn in Hin. repeat (destruct Hin as [Hin|Hin]; [discriminate Hin|]).
    exact Hin.
  - discriminate.
  - discriminate.
  - discriminate.
  - reflexivity.
  - apply (history_typed [Store.CreateTables; Store.InsertPosts Seed.posts;
                          Store.InsertProjects Seed.projects]).
  - reflexivity.
Defined.

Section MissingRelation.
Context `{TextInput}.

Lemma posts_missing_fails (req : request) (w : world) :
  Store.posts (db w) = None ->
  req <> GetProjects ->
  query_fails req w.
Proof.
  intros Hp Hreq. destruct req as [type|id|]; [| |contradiction]; cbn.
  - unfold failed, Server.posts_query.
    destruct (online w) eqn:Hon.
    + destruct (truthy type); rewrite query_online by assumption;
        unfold Store.select_posts_by_type, Store.select_posts, Store.from_posts,
          Store.reading; cbn [fst snd]; rewrite Hp; eexists; reflexivity.
    + destruct (truthy type); rewrite query_offline by assumption;
        eexists; reflexivity.
  - unfold failed, Server.post_query.
    destruct (online w) eqn:Hon.
    + rewrite query_online by assumption.
      unfold Store.select_post_by_id, Store.from_posts, Store.reading.
      cbn [fst snd]. rewrite Hp. eexists. reflexivity.
    + rewrite query_offline by assumption. eexists. reflexivity.
Qed.

Lemma projects_missing_fails (w : world) :
  Store.projects (db w) = None -> query_fails GetProjects w.
Proof.
  intros Hp. cbn. unfold failed, Server.projects_query.
  destruct (online w) eqn:Hon.
  - rewrite query_online by assumption.
    unfold Store.select_projects, Store.from_projects, Store.reading.
    cbn [fst snd]. rewrite Hp. eexists. reflexivity.
  - rewrite query_offline by assumption. eexists. reflexivity.
Qed.

Lemma failing_request_is_500 (req : request) (w : world) :
  query_fails req w ->
  fst (Server.handle req w) = Ret (mkResponse 500 database_error)
  /\ fst (Api.handle req w) = Ret (mkResponse 500 database_error).
Proof.
  intros Hf.
  destruct (handle_cases req w) as [[Hok _]|[e [_ [Hs Ha]]]]; [contradiction|].
  rewrite Hs, Ha. split; reflexivity.
Qed.

(** X6. While a relation does not exist, every route that reads it
    answers 500 with [{"error":"Database error"}], in both files and
    whether or not the connection is up: the two post routes without
    [posts], the project route without [projects]. A missing relation is
    never shown as an empty list or as a post not found. *)
Theorem missing_relation_is_500 (w : world) :
  (Store.posts (db w) = None ->
     (forall type,
        fst (Server.get_posts type w) = Ret (mkResponse 500 database_error)
        /\ fst (Api.get_posts type w) = Ret (mkResponse 500 database_error))
     /\ (forall id,
           fst (Server.get_post id w) = Ret (mkResponse 500 database_error)
           /\ fst (Api.get_post id w) = Ret (mkResponse 500 database_error)))
  /\ (Store.projects (db w) = None ->
        fst (Server.get_projects w) = Ret (mkResponse 500 database_error)
        /\ fst (Api.get_projects w) = Ret (mkResponse 500 database_error)).
Proof.
  split.
  - intros Hp. split.
    + intros type.
      apply (failing_request_is_500 (GetPosts type) w).
      apply posts_missing_fails; [exact Hp | discriminate].
    + intros id.
      apply (failing_request_is_500 (GetPost id) w).
      apply posts_missing_fails; [exact Hp | discriminate].
  - intros Hp.
    apply (failing_request_is_500 GetProjects w).
    apply projects_missing_fails, Hp.
Qed.
End MissingRelation.

Lemma missing_relation_is_500_witness :
  (forall type,
     fst (Server.get_posts type Example.blank) = Ret (mkResponse 500 database_error)
     /\ fst (Api.get_posts type Example.blank) = Ret (mkResponse 500 database_error))
  /\ fst (Server.get_projects Example.blank) = Ret (mkResponse 500 database_error).
Proof.
  destruct (@missing_relation_is_500 decimal_input Example.blank) as [Hposts Hprojects].
  split.
  - apply Hposts. reflexivity.
  - apply Hprojects. reflexivity.
Defined.

(** ** What a run of [initDb] makes of the store *)

Lemma initDb_body_result (c : Pool.client) (s : Store.t) :
  triple (fun w => faults w = [] /\ db w = s)
         (Server.initDb_body c)
         (fun o w =>
            o = Ret tt
            /\ db w = Store.mk
                        (Some (seeded_relation Post.with_id Seed.posts (Store.posts s)))
                        (Some (seeded_relation Project.with_id Seed.projects
                                               (Store.projects s)))).
Proof.
  assert (Hup : forall w, faults w = [] -> online w = false -> False).
  { intros w Hf Hoff. unfold online in Hoff. rewrite Hf in Hoff. discriminate Hoff. }
  set (tp := match Store.posts s with Some tb => tb | None => Store.empty_table end).
  set (tj := match Store.projects s with Some tb => tb | None => Store.empty_table end).
  set (tp' := seeded_relation Post.with_id Seed.posts (Store.posts s)).
  unfold Server.initDb_body.
  eapply triple_bind
    with (R := fun _ w => faults w = [] /\ db w = Store.mk (Some tp) (Some tj)).
  { apply triple_client_query.
    - intros w [Hf _] Hoff. destruct (Hup w Hf Hoff).
    - intros w [Hf Hdb] _. cbn [Store.create_tables fst snd raised].
      split; [cbn; rewrite Hf; reflexivity|]. cbn [settled db]. rewrite Hdb.
      subst tp tj. destruct s as [[p|] [j|]]; reflexivity. }
  intros ?.
  eapply triple_bind
    with (R := fun a w => (faults w = [] /\ db w = Store.mk (Some tp) (Some tj))
                          /\ a = int8out (length (Store.rows tp))).
  { apply triple_client_query.
    - intros w [Hf _] Hoff. destruct (Hup w Hf Hoff).
    - intros w [Hf Hdb] _. rewrite Hdb. cbn.
      split; [|reflexivity]. split; [rewrite Hf; reflexivity | reflexivity]. }
  intros postCountRes.
  eapply triple_bind
    with (R := fun _ w => faults w = [] /\ db w = Store.mk (Some tp') (Some tj)).
  { apply triple_when.
    - intros Hz. apply triple_client_query.
      + intros w [[Hf _] _] Hoff. destruct (Hup w Hf Hoff).
      + intros w [[Hf Hdb] ->] _.
        rewrite count_is_zero in Hz. apply Nat.eqb_eq in Hz.
        assert (Htp : tp = Store.mkTable [] (Store.last_value tp)).
        { destruct tp as [rs lv]. cbn [Store.rows] in Hz.
          destruct rs; [reflexivity | discriminate Hz]. }
        rewrite Hdb. unfold Store.insert_posts. cbn [Store.posts Store.projects].
        rewrite Htp, insert_seed_posts. cbn [fst snd raised settled db].
        split; [cbn; rewrite Hf; reflexivity|].
        subst tp'. unfold seeded_relation. fold tp. rewrite Htp. reflexivity.
    - intros Hz w [[Hf Hdb] ->].
      rewrite count_is_zero in Hz. apply Nat.eqb_neq in Hz.
      split; [exact Hf|]. rewrite Hdb.
      subst tp'. unfold seeded_relation. fold tp.
      destruct (Store.rows tp); [contradiction Hz; reflexivity | reflexivity]. }
  intros ?.
  eapply triple_bind
    with (R := fun a w => (faults w = [] /\ db w = Store.mk (Some tp') (Some tj))
                          /\ a = int8out (length (Store.rows tj))).
  { apply triple_client_query.
    - intros w [Hf _] Hoff. destruct (Hup w Hf Hoff).
    - intros w [Hf Hdb] _. rewrite Hdb. cbn.
      split; [|reflexivity]. split; [rewrite Hf; reflexivity | reflexivity]. }
  intros projectCountRes.
  apply triple_when.
  - intros Hz. apply triple_client_query.
    + intros w [[Hf _] _] Hoff. destruct (Hup w Hf Hoff).
    + intros w [[Hf Hdb] ->] _.
      rewrite count_is_zero in Hz. apply Nat.eqb_eq in Hz.
      assert (Htj : tj = Store.mkTable [] (Store.last_value tj)).
      { destruct tj as [rs lv]. cbn [Store.rows] in Hz.
        destruct rs; [reflexivity | discriminate Hz]. }
      rewrite Hdb. unfold Store.insert_projects. cbn [Store.posts Store.projects].
      rewrite Htj, insert_seed_projects. cbn [fst snd raised settled db].
      split; [reflexivity|].
      unfold seeded_relation. fold tj. rewrite Htj. reflexivity.
  - intros Hz w [[Hf Hdb] ->].
    rewrite count_is_zero in Hz. apply Nat.eqb_neq in Hz.
    split; [reflexivity|]. rewrite Hdb.
    unfold seeded_relation. fold tj.
    destruct (Store.rows tj); [contradiction Hz; reflexivity | reflexivity].
Qed.

(** X8. With the connection up, on relations that are as [initDb]
    declares them where they exist, and with room in the sequence of
    each relation that has no row, [initDb] ends normally, writes
    nothing to the console and gives its client back; each relation is
    created if it was absent, receives its two seed rows, keyed from
    where its sequence stands, if it held no row, and is left exactly as
    it was if it held any. *)
Theorem initDb_result (w : world) :
  faults w = [] ->
  room (Store.posts (db w)) ->
  room (Store.projects (db w)) ->
  fst (Server.initDb w) = Ret tt
  /\ db (snd (Server.initDb w))
     = Store.mk
         (Some (seeded_relation Post.with_id Seed.posts (Store.posts (db w))))
         (Some (seeded_relation Project.with_id Seed.projects
                                (Store.projects (db w))))
  /\ stderr (snd (Server.initDb w)) = stderr w
  /\ checked_out (snd (Server.initDb w)) = checked_out w.
Proof.
  intros Hf _ _.
  assert (Hon : online w = true).
  { unfold online. rewrite Hf. reflexivity. }
  rewrite initDb_online by assumption.
  assert (Hacq : faults (acquired w) = [] /\ db (acquired w) = db w).
  { split; [cbn; rewrite Hf; reflexivity | reflexivity]. }
  pose proof (initDb_body_result Pool.Client (db w) (acquired w) Hacq) as [Ho Hdb].
  pose proof (initDb_body_frame Pool.Client (acquired w)) as [Hco [Herr _]].
  destruct (Server.initDb_body Pool.Client (acquired w)) as [[a|e|code] w2];
    cbn [fst snd] in Ho, Hdb, Hco, Herr; try discriminate Ho.
  destruct a. cbn [fst snd Pool.release db stderr checked_out with_checked_out].
  rewrite Hco. repeat split; assumption.
Qed.

Lemma initDb_result_witness :
  fst (Server.initDb Example.half_seeded) = Ret tt
  /\ db (snd (Server.initDb Example.half_seeded))
     = Store.mk
         (Some (seeded_relation Post.with_id Seed.posts
                                (Store.posts (db Example.half_seeded))))
         (Some (seeded_relation Project.with_id Seed.projects
                                (Store.projects (db Example.half_seeded))))
  /\ stderr (snd (Server.initDb Example.half_seeded)) = stderr Example.half_seeded
  /\ checked_out (snd (Server.initDb Example.half_seeded))
     = checked_out Example.half_seeded.
Proof.
  apply (initDb_result Example.half_seeded).
  - reflexivity.
  - cbn. discriminate.
  - cbn. intros _. lia.
Defined.

(** ** What the declarations of the relations keep *)

Section InsertFacts.
Context {V A : Type}.
Variable constraints : V -> Sql.result unit.
Variable with_id : Z -> V -> A.
Variable key : A -> Z.
Variable pkey : string.
Hypothesis key_with_id : forall n v, key (with_id n v) = n.

(** Rows that went in passed the column constraints. *)
Lemma insert_values_forall (P : A -> Prop) :
  (forall v n, constraints v = inr tt -> P (with_id n v)) ->
  forall vs rs seq rs' n,
    Store.insert_values constraints with_id key pkey vs rs seq = (inr rs', n) ->
    Forall P rs -> Forall P rs'.
Proof.
  intros HP. induction vs as [|v vs IH]; intros rs seq rs' n Hins Hrs; cbn in Hins.
  - injection Hins as <- _. exact Hrs.
  - destruct (constraints v) as [e|[]] eqn:Hc; [discriminate|].
    destruct (existsb (fun r => key r =? seq + 1) rs); [discriminate|].
    apply (IH _ _ _ _ Hins). apply Forall_app. split; [exact Hrs|].
    constructor; [apply HP, Hc | constructor].
Qed.

(** The sequence only moves forward, and the keys it gave stay behind
    it. *)
Lemma insert_values_sequence :
  forall vs rs seq res n,
    Store.insert_values constraints with_id key pkey vs rs seq = (res, n) ->
    seq <= n
    /\ forall rs', res = inr rs' ->
         Forall (fun r => 1 <= key r <= seq) rs -> 0 <= seq ->
         Forall (fun r => 1 <= key r <= n) rs'.
Proof.
  induction vs as [|v vs IH]; intros rs seq res n Hins; cbn in Hins.
  - injection Hins as <- <-. split; [lia|].
    intros rs' Heq. injection Heq as <-. auto.
  - destruct (constraints v) as [e|[]] eqn:Hc.
    { injection Hins as <- <-. split; [lia|]. intros rs' Heq. discriminate Heq. }
    destruct (existsb (fun r => key r =? seq + 1) rs).
    { injection Hins as <- <-. split; [lia|]. intros rs' Heq. discriminate Heq. }
    destruct (IH _ _ _ _ Hins) as [Hle Hall]. split; [lia|].
    intros rs' Heq Hrs Hseq. apply (Hall rs' Heq); [|lia].
    apply Forall_app. split.
    + eapply Forall_impl; [|exact Hrs]. cbn. intros r Hr. lia.
    + constructor; [rewrite key_with_id; lia | constructor].
Qed.

(** The primary key: a key that is taken stops the statement. *)
Lemma insert_values_nodup :
  forall vs rs seq rs' n,
    Store.insert_values constraints with_id key pkey vs rs seq = (inr rs', n) ->
    NoDup (map key rs) -> NoDup (map key rs').
Proof.
  induction vs as [|v vs IH]; intros rs seq rs' n Hins Hrs; cbn in Hins.
  - injection Hins as <- _. exact Hrs.
  - destruct (constraints v) as [e|[]]; [discriminate|].
    destruct (existsb (fun r => key r =? seq + 1) rs) eqn:Hkey; [discriminate|].
    apply (IH _ _ _ _ Hins).
    rewrite map_app. cbn [map]. rewrite key_with_id.
    apply NoDup_app.
    + exact Hrs.
    + constructor; [intros [] | constructor].
    + intros k Hin1 [<-|[]].
      apply in_map_iff in Hin1. destruct Hin1 as [r [Hr Hin1]].
      assert (Hex : existsb (fun r => key r =? seq + 1) rs = true).
      { apply existsb_exists. exists r. split; [exact Hin1 | apply Z.eqb_eq, Hr]. }
      rewrite Hex in Hkey. discriminate Hkey.
Qed.

(** An insert, failed or not, keeps what held of the relation. *)
Lemma insert_keeps (P : A -> Prop) (vs : list V) (tb : Store.table A) :
  (forall v n, constraints v = inr tt -> P (with_id n v)) ->
  NoDup (map key (Store.rows tb)) /\ in_sequence key tb /\ Forall P (Store.rows tb) ->
  let tb' := snd (Store.insert constraints with_id key pkey vs tb) in
  NoDup (map key (Store.rows tb')) /\ in_sequence key tb' /\ Forall P (Store.rows tb').
Proof.
  intros HP [Hk [[Hseq Hrange] Hall]]. unfold Store.insert.
  destruct (Store.insert_values constraints with_id key pkey vs (Store.rows tb)
              (Store.last_value tb)) as [[e|rs'] n] eqn:Hins; cbn.
  - destruct (insert_values_sequence _ _ _ _ _ Hins) as [Hle _].
    split; [exact Hk|]. split; [|exact Hall].
    split; cbn; [lia|].
    eapply Forall_impl; [|exact Hrange]. cbn. intros r Hr. lia.
  - destruct (insert_values_sequence _ _ _ _ _ Hins) as [Hle Hin].
    split; [apply (insert_values_nodup _ _ _ _ _ Hins Hk)|].
    split; [|apply (insert_values_forall P HP _ _ _ _ _ Hins Hall)].
    split; cbn; [lia|]. apply (Hin rs' eq_refl Hrange Hseq).
Qed.
End InsertFacts.

Lemma empty_table_posts_schema : posts_schema Store.empty_table.
Proof.
  unfold posts_schema, in_sequence. cbn.
  repeat split; try constructor; lia.
Qed.

Lemma empty_table_projects_schema : projects_schema Store.empty_table.
Proof.
  unfold projects_schema, in_sequence. cbn.
  repeat split; try constructor; lia.
Qed.

Lemma perform_schema (s : Store.t) (c : Store.write) :
  schema_holds s -> schema_holds (Store.perform s c).
Proof.
  intros [Hp Hj]. destruct c as [|vs|vs]; cbn [Store.perform].
  - unfold Store.create_tables. cbn [snd]. split; cbn [Store.posts Store.projects].
    + intros tb Htb. destruct (Store.posts s) as [tb0|]; cbn in Htb;
        injection Htb as <-; [apply Hp; reflexivity | apply empty_table_posts_schema].
    + intros tb Htb. destruct (Store.projects s) as [tb0|]; cbn in Htb;
        injection Htb as <-; [apply Hj; reflexivity | apply empty_table_projects_schema].
  - unfold Store.insert_posts.
    destruct (Store.posts s) as [tb0|] eqn:Hp0; cbn [snd];
      [|split; [intros tb Htb; rewrite Hp0 in Htb; discriminate Htb | exact Hj]].
    pose proof (insert_keeps Post.constraints Post.with_id Post.id "posts_pkey"
                  (fun n v => eq_refl)
                  (fun r => Post.title r <> None /\ Post.date r <> None) vs tb0)
      as Hkeep.
    destruct (Store.insert Post.constraints Post.with_id Post.id "posts_pkey" vs tb0)
      as [r tb'].
    cbn [snd Store.posts Store.projects] in *. split; [|exact Hj].
    intros tb Htb. injection Htb as <-. apply Hkeep.
    + intros v n Hc. unfold Post.constraints in Hc. cbn.
      destruct (Post.v_title v); [|discriminate Hc].
      destruct (Post.v_date v); [|discriminate Hc].
      split; discriminate.
    + apply Hp. reflexivity.
  - unfold Store.insert_projects.
    destruct (Store.projects s) as [tb0|] eqn:Hj0; cbn [snd];
      [|split; [exact Hp | intros tb Htb; rewrite Hj0 in Htb; discriminate Htb]].
    pose proof (insert_keeps Project.constraints Project.with_id Project.id
                  "projects_pkey" (fun n v => eq_refl)
                  (fun r => Project.title r <> None) vs tb0)
      as Hkeep.
    destruct (Store.insert Project.constraints Project.with_id Project.id
                "projects_pkey" vs tb0) as [r tb'].
    cbn [snd Store.posts Store.projects] in *. split; [exact Hp|].
    intros tb Htb. injection Htb as <-. apply Hkeep.
    + intros v n Hc. unfold Project.constraints in Hc. cbn.
      destruct (Project.v_title v); [discriminate | discriminate Hc].
    + apply Hj. reflexivity.
Qed.

(** X10. In every store that creations and inserts have built from a
    fresh one, whatever rows were offered and whichever statements
    failed, each post has a title and a date and each project a title,
    no two rows of a relation share an [id], and every [id] lies between
    1 and the last value of the relation's sequence. *)
Theorem stored_rows_meet_the_schema (cs : list Store.write) :
  schema_holds (Store.history cs).
Proof.
  unfold Store.history.
  assert (Hgen : forall s, schema_holds s -> schema_holds (fold_left Store.perform cs s)).
  { induction cs as [|c cs IH]; intros s Hs; cbn [fold_left].
    - exact Hs.
    - apply IH, perform_schema, Hs. }
  apply Hgen. split; intros tb Htb; discriminate Htb.
Qed.

Lemma stored_rows_meet_the_schema_witness :
  posts_schema Example.seeded_posts /\ projects_schema Example.seeded_projects.
Proof.
  destruct (stored_rows_meet_the_schema
              [Store.CreateTables; Store.InsertPosts Seed.posts;
               Store.InsertProjects Seed.projects]) as [Hposts Hprojects].
  split; [apply Hposts | apply Hprojects]; reflexivity.
Defined.

(** ** Newest first *)

Section NewestFirst.
Context {A : Type} (key : A -> Z).

Lemma order_by_desc_newest (rs : list A) (r : A) :
  Forall (fun x => key x < key r) rs ->
  Sql.order_by_desc key (rs ++ [r]) = r :: Sql.order_by_desc key rs.
Proof.
  induction 1 as [|x xs Hx _ IH]; [reflexivity|].
  cbn [app Sql.order_by_desc fold_right].
  change (fold_right (Sql.insert_desc key) [] (xs ++ [r]))
    with (Sql.order_by_desc key (xs ++ [r])).
  rewrite IH. cbn [Sql.insert_desc].
  destruct (Z.ltb_spec (key r) (key x)) as [Hlt|_]; [lia | reflexivity].
Qed.

(** Filtering commutes with the ordering. *)
Lemma insert_desc_front (r : A) (l : list A) :
  Forall (fun x => key x < key r) l -> Sql.insert_desc key r l = r :: l.
Proof.
  intros Hl. destruct l as [|x xs]; [reflexivity|].
  apply Forall_inv in Hl. cbn [Sql.insert_desc].
  destruct (Z.ltb_spec (key x) (key r)) as [_|Hge]; [reflexivity | lia].
Qed.

Lemma filter_insert_desc (f : A -> bool) (r : A) (l : list A) :
  descending key l ->
  filter f (Sql.insert_desc key r l)
  = if f r then Sql.insert_desc key r (filter f l) else filter f l.
Proof.
  unfold descending.
  induction l as [|x xs IH]; intros Hs.
  - cbn. destruct (f r); reflexivity.
  - apply StronglySorted_inv in Hs. destruct Hs as [Hxs Hx].
    cbn [Sql.insert_desc].
    destruct (Z.ltb_spec (key x) (key r)) as [Hlt|Hge].
    + cbn [filter]. destruct (f r) eqn:Hr; [|reflexivity].
      symmetry.
      change (if f x then x :: filter f xs else filter f xs) with (filter f (x :: xs)).
      apply insert_desc_front.
      apply Forall_forall. intros y Hy. apply filter_In in Hy. destruct Hy as [Hy _].
      destruct Hy as [<-|Hy]; [exact Hlt|].
      rewrite Forall_forall in Hx. specialize (Hx y Hy). cbn in Hx. lia.
    + cbn [filter]. rewrite (IH Hxs).
      destruct (f x) eqn:Hfx; destruct (f r) eqn:Hr; try reflexivity.
      cbn [Sql.insert_desc].
      destruct (Z.ltb_spec (key x) (key r)) as [Hlt|_]; [lia | reflexivity].
Qed.

Lemma filter_order_by_desc (f : A -> bool) (l : list A) :
  filter f (Sql.order_by_desc key l) = Sql.order_by_desc key (filter f l).
Proof.
  induction l as [|x xs IH]; [reflexivity|].
  cbn [Sql.order_by_desc fold_right].
  change (fold_right (Sql.insert_desc key) [] xs) with (Sql.order_by_desc key xs).
  rewrite filter_insert_desc by apply order_by_desc_sorted.
  rewrite IH. cbn [filter]. destruct (f x); reflexivity.
Qed.
End NewestFirst.

(** X11. Most recently inserted first: in a store whose keys come from
    the sequence, after one more post went in, [GET /api/posts] answers
    that post, with the next value of the sequence as its [id], followed
    by exactly what it answered before. *)
Theorem newest_post_is_listed_first
        (v : Post.values) (w w' : world) (tb : Store.table Post.t) :
  Store.posts (db w) = Some tb ->
  in_sequence Post.id tb ->
  Store.insert_posts [v] (db w) = (inr tt, db w') ->
  online w = true ->
  online w' = true ->
  exists before : list Post.t,
    fst (Server.get_posts None w)
      = Ret (mkResponse 200 (JArr (map post_json before)))
    /\ fst (Server.get_posts None w')
       = Ret (mkResponse 200
                (JArr (post_json (Post.with_id (Store.last_value tb + 1) v)
                       :: map post_json before)))
    /\ fst (Api.get_posts None w') = fst (Server.get_posts None w').
Proof.
  intros Htb [Hseq Hrange] Hins Hon Hon'.
  unfold Store.insert_posts in Hins. rewrite Htb in Hins.
  unfold Store.insert in Hins. cbn [Store.insert_values] in Hins.
  destruct (Post.constraints v) as [e|[]]; [discriminate Hins|].
  destruct (existsb (fun r => Post.id r =? Store.last_value tb + 1) (Store.rows tb));
    [discriminate Hins|].
  injection Hins as Hdb'.
  pose proof (posts_query_all None w tb eq_refl Htb Hon) as Hq.
  assert (Htb' : Store.posts (db w')
                 = Some (Store.mkTable
                           (Store.rows tb ++ [Post.with_id (Store.last_value tb + 1) v])
                           (Store.last_value tb + 1))).
  { rewrite <- Hdb'. reflexivity. }
  pose proof (posts_query_all None w' _ eq_refl Htb' Hon') as Hq'.
  cbn [Store.rows] in Hq'.
  rewrite order_by_desc_newest in Hq'.
  - exists (Sql.order_by_desc Post.id (Store.rows tb)).
    rewrite (server_get_posts_ok None w _ _ Hq).
    rewrite (server_get_posts_ok None w' _ _ Hq').
    rewrite (api_get_posts_ok None w' _ _ Hq').
    repeat split.
  - eapply Forall_impl; [|exact Hrange]. cbn. intros r Hr. lia.
Qed.

Lemma newest_post_is_listed_first_witness :
  exists before : list Post.t,
    fst (Server.get_posts None Example.seeded)
      = Ret (mkResponse 200 (JArr (map post_json before)))
    /\ fst (Server.get_posts None Example.grown)
       = Ret (mkResponse 200
                (JArr (post_json
                         (Post.with_id (Store.last_value Example.seeded_posts + 1)
                                       Example.third_post)
                       :: map post_json before)))
    /\ fst (Api.get_posts None Example.grown)
       = fst (Server.get_posts None Example.grown).
Proof.
  apply (newest_post_is_listed_first Example.third_post Example.seeded Example.grown
           Example.seeded_posts).
  - reflexivity.
  - unfold in_sequence. vm_compute.
    split; [discriminate|]. repeat first [discriminate | constructor].
  - reflexivity.
  - reflexivity.
  - reflexivity.
Defined.

(** ** The page and the server *)

Lemma same_text_has_type (v : string) (p : Post.t) :
  App.same_text (Post.type p) (Some v) = has_type v p.
Proof.
  unfold App.same_text, has_type, Sql.where_holds, Sql.text_eq.
  destruct (Post.type p) as [t|]; [|reflexivity].
  destruct (String.eqb t v); reflexivity.
Qed.

(** With an array in [posts], [currentPost] does not throw. *)
Lemma currentPost_of_items (s : App.state) (l : list Post.t) :
  App.posts s = App.Items l ->
  exists current, App.currentPost s = App.Gave current.
Proof.
  intros Hl. unfold App.currentPost. rewrite Hl.
  destruct (App.selectedPostId s) as [id|]; [|eauto].
  destruct (id =? 0); cbn; eauto.
Qed.

(** A list view over an array of posts. *)
Lemma render_list (s : App.state) (v : string) (l : list Post.t) :
  In v ["thinking"; "doing"] ->
  App.view s = Some v ->
  App.posts s = App.Items l ->
  App.render s = App.Gave (App.ListSection v (filter (has_type v) l)).
Proof.
  intros Hv Hview Hl. unfold App.render.
  destruct (currentPost_of_items s l Hl) as [current ->].
  rewrite Hview, Hl. cbn [App.array_filter].
  rewrite (filter_ext _ _ (same_text_has_type v)).
  destruct Hv as [<-|[<-|[]]]; reflexivity.
Qed.

(** X14. The list the page shows under Thinking or Doing, which it
    filters itself out of the posts it fetched once without a filter, is
    row for row and in the same order the list the server answers to
    [GET /api/posts?type=] for that view. *)
Theorem page_list_is_server_filter
        (v : string) (w : world) (tb : Store.table Post.t) :
  In v ["thinking"; "doing"] ->
  Store.posts (db w) = Some tb ->
  online w = true ->
  exists every shown : list Post.t,
    fst (Server.get_posts None w)
      = Ret (mkResponse 200 (JArr (map post_json every)))
    /\ fst (Server.get_posts (Some v) w)
       = Ret (mkResponse 200 (JArr (map post_json shown)))
    /\ forall s, App.posts s = App.Items every -> App.view s = Some v ->
         App.render s = App.Gave (App.ListSection v shown).
Proof.
  intros Hv Htb Hon.
  assert (Hne : v <> "").
  { destruct Hv as [<-|[<-|[]]]; discriminate. }
  pose proof (posts_query_all None w tb eq_refl Htb Hon) as Hall.
  pose proof (posts_query_filtered v w tb Hne Htb Hon) as Hsome.
  exists (Sql.order_by_desc Post.id (Store.rows tb)),
         (Sql.order_by_desc Post.id (filter (has_type v) (Store.rows tb))).
  rewrite (server_get_posts_ok None w _ _ Hall).
  rewrite (server_get_posts_ok (Some v) w _ _ Hsome).
  split; [reflexivity|]. split; [reflexivity|].
  intros s Hposts Hview.
  rewrite (render_list s v _ Hv Hview Hposts).
  rewrite filter_order_by_desc. reflexivity.
Qed.

Lemma page_list_is_server_filter_witness :
  exists every shown : list Post.t,
    fst (Server.get_posts None Example.mixed)
      = Ret (mkResponse 200 (JArr (map post_json every)))
    /\ fst (Server.get_posts (Some "thinking") Example.mixed)
       = Ret (mkResponse 200 (JArr (map post_json shown)))
    /\ forall s, App.posts s = App.Items every -> App.view s = Some "thinking" ->
         App.render s = App.Gave (App.ListSection "thinking" shown).
Proof.
  apply (page_list_is_server_filter "thinking" Example.mixed Example.mixed_posts).
  - left. reflexivity.
  - reflexivity.
  - reflexivity.
Defined.

(** X15. The page does not look at the status of an answer. When the
    query behind [GET /api/posts] fails, in either file, and the page
    reads the 500 answer, [fetchData] logs nothing and puts the error
    object in [posts]; from then on rendering the Thinking or the Doing
    list throws, since that object has no [filter]. *)
Theorem failed_load_breaks_the_lists
        (w : world) (answer : outcome response) (postsRes : App.fetched Post.t)
        (projectsData : App.collection Project.t) (s : App.state) :
  failed (Server.posts_query None w) ->
  answer = fst (Server.get_posts None w) \/ answer = fst (Api.get_posts None w) ->
  received post_json answer postsRes ->
  App.posts (App.fetchData postsRes (App.Answered projectsData) s)
    = App.NotArray database_error
  /\ App.console (App.fetchData postsRes (App.Answered projectsData) s)
     = App.console s
  /\ App.loading (App.fetchData postsRes (App.Answered projectsData) s) = false
  /\ forall v, In v ["thinking"; "doing"] ->
       App.render (App.setView (Some v)
                     (App.fetchData postsRes (App.Answered projectsData) s))
       = App.Threw.
Proof.
  intros [e He] Hanswer [resp [data [Hresp [-> Hholds]]]].
  destruct (Server.posts_query None w) as [o w1] eqn:Hq. cbn in He. subst o.
  assert (Hbody : resp = mkResponse 500 database_error).
  { destruct Hanswer as [->| ->].
    - rewrite (server_get_posts_err None w e w1 Hq) in Hresp.
      injection Hresp as <-. reflexivity.
    - rewrite (api_get_posts_err None w e w1 Hq) in Hresp.
      injection Hresp as <-. reflexivity. }
  subst resp. cbn [body] in Hholds.
  assert (Hdata : data = App.NotArray database_error).
  { inversion Hholds; subst; reflexivity. }
  subst data. cbn [App.fetchData App.posts App.console App.loading].
  split; [reflexivity|]. split; [reflexivity|]. split; [reflexivity|].
  intros v Hv. unfold App.render, App.currentPost, App.setView.
  cbn [App.selectedPostId App.posts App.view].
  destruct (App.selectedPostId s) as [id|]; [destruct (id =? 0)|];
    cbn [App.array_find]; try reflexivity;
    destruct Hv as [<-|[<-|[]]]; reflexivity.
Qed.

Lemma failed_load_breaks_the_lists_witness :
  App.posts (App.fetchData (App.Answered (App.NotArray database_error))
                           (App.Answered (App.Items [])) App.initial)
    = App.NotArray database_error
  /\ App.console (App.fetchData (App.Answered (App.NotArray database_error))
                                (App.Answered (App.Items [])) App.initial)
     = App.console App.initial
  /\ App.loading (App.fetchData (App.Answered (App.NotArray database_error))
                                (App.Answered (App.Items [])) App.initial) = false
  /\ forall v, In v ["thinking"; "doing"] ->
       App.render (App.setView (Some v)
                     (App.fetchData (App.Answered (App.NotArray database_error))
                                    (App.Answered (App.Items [])) App.initial))
       = App.Threw.
Proof.
  apply (failed_load_breaks_the_lists Example.cut_off
           (fst (Server.get_posts None Example.cut_off))).
  - exists (DbError Sql.ConnectionFailure). reflexivity.
  - left. reflexivity.
  - exists (mkResponse 500 database_error), (App.NotArray database_error).
    split; [reflexivity|]. split; [reflexivity|].
    apply holds_other. intros items. discriminate.
Defined.

(** ** Opening a post and coming back *)

Lemma find_keyed (l : list Post.t) (p : Post.t) :
  keyed l -> In p l ->
  find (fun x => Post.id x =? Post.id p) l = Some p.
Proof.
  unfold keyed. induction l as [|x xs IH]; intros Hk Hin; [contradiction|].
  cbn in Hk. apply NoDup_cons_iff in Hk. destruct Hk as [Hx Hxs].
  cbn [find]. destruct Hin as [->|Hin].
  - rewrite Z.eqb_refl. reflexivity.
  - destruct (Z.eqb_spec (Post.id x) (Post.id p)) as [Heq|_].
    + exfalso. apply Hx. rewrite Heq. apply in_map, Hin.
    + apply IH; assumption.
Qed.

(** X16. From the Thinking or the Doing list, over posts whose [id]s
    are distinct, a click on an article whose [id] is not 0 shows the
    detail of that very post, and the button there leads back to the
    list the reader came from, showing what it showed. *)
Theorem open_post_and_back
        (s : App.state) (l articles : list Post.t) (v : string) (p : Post.t) :
  App.posts s = App.Items l ->
  keyed l ->
  In v ["thinking"; "doing"] ->
  App.view s = Some v ->
  App.render s = App.Gave (App.ListSection v articles) ->
  In p articles ->
  Post.id p <> 0 ->
  App.render (App.navigateToPost (Post.id p) s) = App.Gave (App.DetailSection p)
  /\ App.view (App.back (App.navigateToPost (Post.id p) s)) = Some v
  /\ App.render (App.back (App.navigateToPost (Post.id p) s))
     = App.Gave (App.ListSection v articles).
Proof.
  intros Hl Hk Hv Hview Hrender Hp Hid.
  rewrite (render_list s v l Hv Hview Hl) in Hrender.
  injection Hrender as <-.
  apply filter_In in Hp. destruct Hp as [Hin Hty].
  apply has_type_spec in Hty.
  assert (Hdetail : App.render (App.navigateToPost (Post.id p) s)
                    = App.Gave (App.DetailSection p)).
  { unfold App.render, App.currentPost, App.navigateToPost, App.setView,
      App.setSelectedPostId.
    cbn [App.selectedPostId App.posts App.view].
    destruct (Z.eqb_spec (Post.id p) 0) as [H0|_]; [contradiction|].
    rewrite Hl. cbn [App.array_find]. rewrite (find_keyed l p Hk Hin). reflexivity. }
  assert (Hback : App.back (App.navigateToPost (Post.id p) s)
                  = App.setView (Some v) (App.navigateToPost (Post.id p) s)).
  { unfold App.back. rewrite Hdetail, Hty. reflexivity. }
  split; [exact Hdetail|]. rewrite Hback. split; [reflexivity|].
  apply render_list; [exact Hv | reflexivity | exact Hl].
Qed.

Lemma open_post_and_back_witness :
  exists p, Post.id p = 3
  /\ App.render (App.navigateToPost (Post.id p) Example.page)
     = App.Gave (App.DetailSection p)
  /\ App.view (App.back (App.navigateToPost (Post.id p) Example.page))
     = Some "thinking"
  /\ App.render (App.back (App.navigateToPost (Post.id p) Example.page))
     = App.render Example.page.
Proof.
  exists (Post.mk 3 (Some "thinking") (Some "c") None None None (Some "d3")).
  split; [reflexivity|].
  apply (open_post_and_back Example.page
           (Sql.order_by_desc Post.id (Store.rows Example.mixed_posts))).
  - reflexivity.
  - unfold keyed. vm_compute. repeat constructor; simpl; intuition discriminate.
  - left. reflexivity.
  - reflexivity.
  - reflexivity.
  - vm_compute. left. reflexivity.
  - discriminate.
Defined.

(** ** The chips of a project *)

Lemma split_plain (sep : ascii) (w : string) :
  ~ In sep (list_ascii_of_string w) -> JsString.split sep w = [w].
Proof.
  induction w as [|c r IH]; intros Hno; [reflexivity|].
  cbn [JsString.split]. cbn in Hno.
  destruct (Ascii.eqb_spec c sep) as [Heq|_].
  - exfalso. apply Hno. left. exact Heq.
  - rewrite IH; [reflexivity|]. intros Hin. apply Hno. right. exact Hin.
Qed.

Lemma split_at_sep (sep : ascii) (w rest : string) :
  ~ In sep (list_ascii_of_string w) ->
  JsString.split sep (w ++ String sep rest) = w :: JsString.split sep rest.
Proof.
  induction w as [|c r IH]; intros Hno.
  - cbn. rewrite Ascii.eqb_refl. reflexivity.
  - cbn [append JsString.split]. cbn in Hno.
    destruct (Ascii.eqb_spec c sep) as [Heq|_].
    + exfalso. apply Hno. left. exact Heq.
    + rewrite IH; [reflexivity|]. intros Hin. apply Hno. right. exact Hin.
Qed.

(** A space after the comma goes with the trimming. *)
Lemma trim_leading_space (w : string) :
  JsString.trim (String " " w) = JsString.trim w.
Proof. reflexivity. Qed.

Lemma chips_of_joined (ws : list string) :
  ws <> [] ->
  Forall tag_word ws ->
  map JsString.trim (JsString.split "," (joined ws)) = ws.
Proof.
  intros Hne Hall. induction Hall as [|w rest [Hcomma Htrim] Hrest IH];
    [contradiction|].
  destruct rest as [|w' rest'].
  - cbn [joined]. rewrite split_plain by assumption. cbn. rewrite Htrim. reflexivity.
  - change (joined (w :: w' :: rest'))
      with (w ++ String "," (String " " (joined (w' :: rest')))).
    rewrite split_at_sep by assumption.
    assert (IH' : map JsString.trim (JsString.split "," (joined (w' :: rest')))
                  = w' :: rest') by (apply IH; discriminate).
    clear IH. cbn [map]. rewrite Htrim. f_equal.
    cbn [JsString.split]. change (Ascii.eqb " " ",") with false. cbv iota.
    destruct (JsString.split "," (joined (w' :: rest'))) as [|piece pieces] eqn:Hs.
    + discriminate IH'.
    + cbn [map] in IH' |- *. rewrite trim_leading_space. exact IH'.
Qed.

(** X17. Tags written as words with a comma and a space between them,
    none with a comma in it or white space around it, come out of
    [split(",")] and [trim()] as those words, in order: the chips under
    a project are the words of its [tags]. *)
Theorem tag_chips_are_the_words (ws : list string) :
  ws <> [] ->
  Forall tag_word ws ->
  App.tag_chips (Some (joined ws)) = App.Gave ws.
Proof.
  intros Hne Hall. unfold App.tag_chips.
  rewrite (chips_of_joined ws Hne Hall). reflexivity.
Qed.

Lemma tag_chips_are_the_words_witness :
  joined ["AI"; "ML"; "React"] = "AI, ML, React"
  /\ App.tag_chips (Some (joined ["AI"; "ML"; "React"]))
     = App.Gave ["AI"; "ML"; "React"].
Proof.
  split; [reflexivity|].
  apply (tag_chips_are_the_words ["AI"; "ML"; "React"]).
  - discriminate.
  - repeat constructor; simpl; intuition discriminate.
Defined.

(** ** The Working section *)

Lemma cards_of_projects (l : list Project.t) :
  (Forall (fun p => Project.tags p <> None) l ->
   exists cards,
     App.map_each (fun project =>
                     match App.tag_chips (Project.tags project) with
                     | App.Threw => App.Threw
                     | App.Gave chips => App.Gave (project, chips)
                     end) l = App.Gave cards
     /\ map fst cards = l
     /\ Forall (fun card => snd card <> []) cards)
  /\ (Exists (fun p => Project.tags p = None) l ->
      App.map_each (fun project =>
                      match App.tag_chips (Project.tags project) with
                      | App.Threw => App.Threw
                      | App.Gave chips => App.Gave (project, chips)
                      end) l = App.Threw).
Proof.
  induction l as [|p ps [IHok IHbad]].
  - split.
    + intros _. exists []. repeat split. constructor.
    + intros Hex. inversion Hex.
  - split.
    + intros Hall. apply Forall_cons_iff in Hall. destruct Hall as [Hp Hps].
      destruct (IHok Hps) as [cards [Hcards [Hfst Hchips]]].
      cbn [App.map_each]. destruct (Project.tags p) as [t|] eqn:Ht; [|contradiction].
      cbn [App.tag_chips]. rewrite Hcards.
      eexists. split; [reflexivity|]. cbn [map fst]. rewrite Hfst.
      split; [reflexivity|]. constructor; [|exact Hchips].
      cbn [snd]. destruct t as [|c r]; cbn; [discriminate|].
      destruct (Ascii.eqb c ","); [discriminate|].
      destruct (JsString.split "," r); discriminate.
    + intros Hex. cbn [App.map_each].
      destruct (Project.tags p) as [t|] eqn:Ht; cbn [App.tag_chips]; [|reflexivity].
      apply Exists_cons in Hex. destruct Hex as [Hp|Hps].
      * rewrite Ht in Hp. discriminate Hp.
      * rewrite (IHbad Hps). reflexivity.
Qed.

(** X18. The declaration of [projects] lets a row have no [tags], and
    the page calls [split] on the [tags] of every project: over an array
    of projects the Working section shows one card per project, in
    order, each with at least one chip, when every project has [tags],
    and rendering it throws as soon as one has none. *)
Theorem working_section_needs_tags
        (s : App.state) (l : list Project.t) (ps : list Post.t) :
  App.view s = Some "working" ->
  App.posts s = App.Items ps ->
  App.projects s = App.Items l ->
  (Forall (fun p => Project.tags p <> None) l ->
   exists cards,
     App.render s = App.Gave (App.WorkingSection cards)
     /\ map fst cards = l
     /\ Forall (fun card => snd card <> []) cards)
  /\ (Exists (fun p => Project.tags p = None) l -> App.render s = App.Threw).
Proof.
  intros Hview Hposts Hprojects.
  destruct (currentPost_of_items s ps Hposts) as [current Hcur].
  destruct (cards_of_projects l) as [Hok Hbad].
  unfold App.render. rewrite Hcur, Hview, Hprojects. cbn.
  split.
  - intros Hall. destruct (Hok Hall) as [cards [-> [Hfst Hchips]]].
    exists cards. repeat split; assumption.
  - intros Hex. rewrite (Hbad Hex). reflexivity.
Qed.

Lemma working_section_needs_tags_witness :
  exists p,
    fst (Server.get_projects Example.untagged)
      = Ret (mkResponse 200 (JArr [project_json p]))
    /\ Project.tags p = None
    /\ App.render (App.mk (Some "working") None (App.Items []) (App.Items [p])
                          App.dark false [])
       = App.Threw.
Proof.
  exists (Project.with_id 1 Example.bare_project).
  split; [reflexivity|]. split; [reflexivity|].
  apply (proj2 (working_section_needs_tags
                  (App.mk (Some "working") None (App.Items [])
                          (App.Items [Project.with_id 1 Example.bare_project])
                          App.dark false [])
                  [Project.with_id 1 Example.bare_project] []
                  eq_refl eq_refl eq_refl)).
  constructor. reflexivity.
Defined.

(** ** What [initDb] never does *)

Lemma initDb_body_steps (c : Pool.client) (s : Store.t) :
  triple (fun w => db w = s)
         (Server.initDb_body c)
         (fun _ w =>
            left_as Post.with_id Seed.posts (Store.posts s) (Store.posts (db w))
            /\ left_as Project.with_id Seed.projects (Store.projects s)
                       (Store.projects (db w))).
Proof.
  set (tp := match Store.posts s with Some tb => tb | None => Store.empty_table end).
  set (tj := match Store.projects s with Some tb => tb | None => Store.empty_table end).
  set (tp' := seeded_relation Post.with_id Seed.posts (Store.posts s)).
  set (tj' := seeded_relation Project.with_id Seed.projects (Store.projects s)).
  assert (Hmade_p : left_as Post.with_id Seed.posts (Store.posts s) (Some tp)).
  { subst tp. destruct (Store.posts s); [left | right; left]; auto. }
  assert (Hmade_j : left_as Project.with_id Seed.projects (Store.projects s) (Some tj)).
  { subst tj. destruct (Store.projects s); [left | right; left]; auto. }
  assert (Hdone_p : left_as Post.with_id Seed.posts (Store.posts s) (Some tp')).
  { right. right. reflexivity. }
  assert (Hdone_j : left_as Project.with_id Seed.projects (Store.projects s) (Some tj')).
  { right. right. reflexivity. }
  unfold Server.initDb_body.
  eapply triple_bind with (R := fun _ w => db w = Store.mk (Some tp) (Some tj)).
  { apply triple_client_query.
    - intros w Hdb _. cbn [db with_faults]. rewrite Hdb. split; left; reflexivity.
    - intros w Hdb _. cbn [Store.create_tables fst snd raised settled db].
      rewrite Hdb. subst tp tj. destruct s as [[p|] [j|]]; reflexivity. }
  intros ?.
  eapply triple_bind
    with (R := fun a w => db w = Store.mk (Some tp) (Some tj)
                          /\ a = int8out (length (Store.rows tp))).
  { apply triple_client_query.
    - intros w Hdb _. cbn [db with_faults]. rewrite Hdb. split; assumption.
    - intros w Hdb _. rewrite Hdb. cbn. split; reflexivity. }
  intros postCountRes.
  eapply triple_bind with (R := fun _ w => db w = Store.mk (Some tp') (Some tj)).
  { apply triple_when.
    - intros Hz. apply triple_client_query.
      + intros w [Hdb _] _. cbn [db with_faults]. rewrite Hdb. split; assumption.
      + intros w [Hdb ->] _.
        rewrite count_is_zero in Hz. apply Nat.eqb_eq in Hz.
        assert (Htp : tp = Store.mkTable [] (Store.last_value tp)).
        { destruct tp as [rs lv]. cbn [Store.rows] in Hz.
          destruct rs; [reflexivity | discriminate Hz]. }
        rewrite Hdb. unfold Store.insert_posts. cbn [Store.posts Store.projects].
        rewrite Htp, insert_seed_posts. cbn [fst snd raised settled db].
        subst tp'. unfold seeded_relation. fold tp. rewrite Htp. reflexivity.
    - intros Hz w [Hdb ->].
      rewrite count_is_zero in Hz. apply Nat.eqb_neq in Hz.
      rewrite Hdb. subst tp'. unfold seeded_relation. fold tp.
      destruct (Store.rows tp); [contradiction Hz; reflexivity | reflexivity]. }
  intros ?.
  eapply triple_bind
    with (R := fun a w => db w = Store.mk (Some tp') (Some tj)
                          /\ a = int8out (length (Store.rows tj))).
  { apply triple_client_query.
    - intros w Hdb _. cbn [db with_faults]. rewrite Hdb. split; assumption.
    - intros w Hdb _. rewrite Hdb. cbn. split; reflexivity. }
  intros projectCountRes.
  apply triple_when.
  - intros Hz. apply triple_client_query.
    + intros w [Hdb _] _. cbn [db with_faults]. rewrite Hdb. split; assumption.
    + intros w [Hdb ->] _.
      rewrite count_is_zero in Hz. apply Nat.eqb_eq in Hz.
      assert (Htj : tj = Store.mkTable [] (Store.last_value tj)).
      { destruct tj as [rs lv]. cbn [Store.rows] in Hz.
        destruct rs; [reflexivity | discriminate Hz]. }
      rewrite Hdb. unfold Store.insert_projects. cbn [Store.posts Store.projects].
      rewrite Htj, insert_seed_projects. cbn [fst snd raised settled db Store.posts Store.projects].
      split; [exact Hdone_p|]. right. right.
      unfold seeded_relation. fold tj. rewrite Htj. reflexivity.
  - intros Hz w [Hdb ->].
    rewrite count_is_zero in Hz. apply Nat.eqb_neq in Hz.
    rewrite Hdb. cbn [Store.posts Store.projects]. split; [exact Hdone_p|].
    right. right. unfold seeded_relation. fold tj.
    destruct (Store.rows tj); [contradiction Hz; reflexivity | reflexivity].
Qed.

(** X19. Whatever happens to the connection during [initDb], each
    relation ends in one of three states: as it was, created without
    rows if it was absent, or as a complete run leaves it. So a relation
    that held rows keeps exactly those rows, whatever the state of the
    other one, and no relation is ever left with one seed row and not
    the other. *)
Theorem initDb_changes_only_empty_relations (w : world) :
  left_as Post.with_id Seed.posts
          (Store.posts (db w)) (Store.posts (db (snd (Server.initDb w))))
  /\ left_as Project.with_id Seed.projects
             (Store.projects (db w)) (Store.projects (db (snd (Server.initDb w))))
  /\ (forall tb, Store.posts (db w) = Some tb -> Store.rows tb <> [] ->
        Store.posts (db (snd (Server.initDb w))) = Some tb)
  /\ (forall tb, Store.projects (db w) = Some tb -> Store.rows tb <> [] ->
        Store.projects (db (snd (Server.initDb w))) = Some tb).
Proof.
  assert (Hleft : left_as Post.with_id Seed.posts
                          (Store.posts (db w))
                          (Store.posts (db (snd (Server.initDb w))))
                  /\ left_as Project.with_id Seed.projects
                             (Store.projects (db w))
                             (Store.projects (db (snd (Server.initDb w))))).
  { destruct (online w) eqn:Hon.
    - rewrite initDb_online by assumption.
      pose proof (initDb_body_steps Pool.Client (db w) (acquired w) eq_refl) as Hbody.
      destruct (Server.initDb_body Pool.Client (acquired w)) as [[a|e|code] w2];
        cbn [fst snd] in Hbody; exact Hbody.
    - unfold Server.initDb, bind. rewrite connect_offline by assumption.
      split; left; reflexivity. }
  destruct Hleft as [Hp Hj].
  split; [exact Hp|]. split; [exact Hj|]. split.
  - intros tb Htb Hrows. rewrite Htb in Hp.
    destruct Hp as [Hsame|[[Habsent _]|Hseeded]].
    + exact Hsame.
    + discriminate Habsent.
    + rewrite Hseeded. unfold seeded_relation.
      destruct (Store.rows tb); [contradiction | reflexivity].
  - intros tb Htb Hrows. rewrite Htb in Hj.
    destruct Hj as [Hsame|[[Habsent _]|Hseeded]].
    + exact Hsame.
    + discriminate Habsent.
    + rewrite Hseeded. unfold seeded_relation.
      destruct (Store.rows tb); [contradiction | reflexivity].
Qed.

Lemma initDb_changes_only_empty_relations_witness :
  Store.posts (db (snd (Server.initDb Example.half_seeded_cut)))
    = Some Example.mixed_posts
  /\ Store.projects (db (snd (Server.initDb Example.half_seeded_cut)))
     = Store.projects (db Example.half_seeded_cut).
Proof.
  destruct (initDb_changes_only_empty_relations Example.half_seeded_cut)
    as [_ [_ [Hposts _]]].
  split.
  - apply Hposts; [reflexivity | discriminate].
  - reflexivity.
Defined.

(** ** The count, as the program reads it *)

(** X13. [parseInt] reads the count the store printed as the double
    nearest to it, never as [NaN] and with no prefix taken for a radix:
    for a relation of [n] rows it is the number [n] itself as long as
    [n] is below 2^53, and the test [=== 0] that guards the seeding
    holds exactly on a relation without rows, whatever [n] is. *)
Theorem counted_rows_are_read_back (n : nat) :
  parseInt (int8out n) = Number.of_nonneg (Z.of_nat n)
  /\ (Z.of_nat n < 2 ^ 53 -> parseInt (int8out n) = Number.Finite (Z.of_nat n))
  /\ (Server.is_zero (parseInt (int8out n)) = true <-> n = 0%nat).
Proof.
  split; [apply parseInt_int8out|]. split.
  - intros Hn. rewrite parseInt_int8out. unfold Number.of_nonneg.
    destruct (Z.ltb_spec (Z.of_nat n) (2 ^ 53)) as [_|Hge]; [reflexivity | lia].
  - rewrite count_is_zero. apply Nat.eqb_eq.
Qed.

Lemma counted_rows_are_read_back_witness :
  parseInt (int8out 2) = Number.Finite 2
  /\ (Server.is_zero (parseInt (int8out 0)) = true <-> 0%nat = 0%nat).
Proof.
  split.
  - apply (proj1 (proj2 (counted_rows_are_read_back 2))). reflexivity.
  - exact (proj2 (proj2 (counted_rows_are_read_back 0))).
Defined.

(** X7. Two runs of [initDb] with the connection up, from a store whose
    relations are as [initDb] declares them where they exist and whose
    sequences have room where a relation has no row: the first ends
    normally and leaves rows in both relations, the second changes
    nothing in the store. *)
Theorem initDb_run_twice (w : world) :
  faults w = [] ->
  room (Store.posts (db w)) ->
  room (Store.projects (db w)) ->
  fst (Server.initDb w) = Ret tt
  /\ populated (Store.posts (db (snd (Server.initDb w))))
  /\ populated (Store.projects (db (snd (Server.initDb w))))
  /\ db (snd (Server.initDb (snd (Server.initDb w)))) = db (snd (Server.initDb w)).
Proof. intros Hf _ _. apply initDb_twice. exact Hf. Qed.

Lemma initDb_run_twice_witness :
  fst (Server.initDb Example.blank) = Ret tt
  /\ populated (Store.posts (db (snd (Server.initDb Example.blank))))
  /\ populated (Store.projects (db (snd (Server.initDb Example.blank))))
  /\ db (snd (Server.initDb (snd (Server.initDb Example.blank))))
     = db (snd (Server.initDb Example.blank)).
Proof.
  apply (initDb_run_twice Example.blank).
  - reflexivity.
  - exact I.
  - exact I.
Defined.
